(** * Typed-data hashing and signature helpers (src/helpers/ethSigUtil.js)

    A shallow embedding of the helper module: the EIP-712 type graph
    ([findTypeDependencies], [encodeType]), the struct encoder
    ([encodeData], [hashStruct], [sign]), the signature codec
    ([concatSig], [fromRpcSig]), [normalize], the legacy typed-data hash,
    the three signing entry points and the recovering ones.

    Conventions.
    - JavaScript values are the trees of [val]; numbers are the integral
      ones (plus [VNaN]), strings are ASCII.  A schema and a struct
      instance are plain objects: reading a property finds the object's
      own property or else what every object inherits from
      Object.prototype (constructor, toString, ...).  What a string, a
      number, an array, a buffer or a built-in holds under a name is the
      host's to say: it is a variable of the sections ([hostGet]).
    - A call either returns or throws: [outcome].  The walk over the type
      graph carries a fuel argument and is closed by a wrapper that
      supplies enough of it.  The recursion of [encodeData] follows the
      data wherever reading leads, also into the built-ins, whose chain
      of constructors never ends; it is bounded by the room the host has
      on its call stack ([frames]), and a call beyond it throws the
      RangeError of an exhausted stack.
    - Keccak-256, the ABI encoders and the curve operations are external
      collaborators: they are the variables of the sections below.
    - A schema holds lists of fields with a name and a type, both
      strings; a typed message holds what TYPED_MESSAGE_SCHEMA asks for,
      each property possibly missing or falsy; the legacy list holds
      entries with a type, a value and possibly a name. *)

From Stdlib Require Import ZArith String Ascii HexString List Lia.
From stdpp Require Import base option list gmap strings sorting.

Set Warnings "-register-all".
Local Open Scope Z_scope.
Local Open Scope string_scope.
Local Open Scope list_scope.
Local Open Scope stdpp_scope.

(** * The model *)

(** ** JavaScript values *)

Abbreviation Buffer := (list Byte.byte).

(** [VNative] is a built-in of the host, a function such as
    Object.prototype.toString ([callable]) or an object such as
    Object.prototype itself, named by what it is. *)
Inductive val : Type :=
| VUndefined
| VNull
| VBool (b : bool)
| VNum (z : Z)
| VNaN
| VStr (s : string)
| VBuffer (bs : Buffer)
| VArr (l : list val)
| VObj (kvs : list (string * val))
| VNative (callable : bool) (name : string).

(** [!!v] is false exactly for the falsy values. *)
Definition truthy (v : val) : bool :=
  match v with
  | VUndefined | VNull | VNaN => false
  | VBool b => b
  | VNum z => negb (z =? 0)%Z
  | VStr s => negb (String.eqb s "")
  | VBuffer _ | VArr _ | VObj _ | VNative _ _ => true
  end.

Definition typeof (v : val) : string :=
  match v with
  | VUndefined => "undefined"
  | VBool _ => "boolean"
  | VNum _ | VNaN => "number"
  | VStr _ => "string"
  | VNull | VBuffer _ | VArr _ | VObj _ => "object"
  | VNative callable _ => if callable then "function" else "object"
  end.

(** What a call can throw. *)
Inductive exn : Type :=
| TypeError                          (* raised by the runtime itself *)
| RangeError                         (* "Maximum call stack size exceeded" *)
| NoTypeDefinition (type : string)   (* "No type definition specified: ${type}" *)
| ArraysUnimplemented                (* "Arrays currently unimplemented in encodeData" *)
| ExpectNonEmptyArray                (* "Expect argument to be non-empty array" *)
| NormalizeInput (received : string) (* "eth-sig-util.normalize() requires hex string ..." *)
| InvalidType                        (* ethereumjs-util toBuffer: "invalid type" *)
| InvalidSignatureLength             (* ethereumjs-util fromRpcSig *)
| NotSafeInteger                     (* bn.js toNumber above 53 bits *)
| External (msg : string).           (* anything an external encoder or curve routine throws *)

Inductive outcome (A : Type) : Type :=
| Return (a : A)
| Throw (e : exn)
| OutOfFuel.
Arguments Return {A} a.
Arguments Throw {A} e.
Arguments OutOfFuel {A}.

(** [x ← m; k] runs [k] on what [m] returns and passes a throw on. *)
Global Instance outcome_bind : MBind outcome := fun A B k m =>
  match m with
  | Return a => k a
  | Throw e => Throw e
  | OutOfFuel => OutOfFuel
  end.

(** Left-to-right traversal that stops at the first throw, as [Array.map]
    with a throwing callback does. *)
Fixpoint mapM {A B} (f : A -> outcome B) (l : list A) : outcome (list B) :=
  match l with
  | [] => Return []
  | x :: l' => y ← f x; ys ← mapM f l'; Return (y :: ys)
  end.

(** The loop [for (const x of xs) st = body(x, st)] with a body that may throw. *)
Fixpoint foldM {A S} (body : A -> S -> outcome S) (xs : list A) (st : S) : outcome S :=
  match xs with
  | [] => Return st
  | x :: xs' => st' ← body x st; foldM body xs' st'
  end.

(** ** External collaborators

    What an external encoder, a curve routine or the host hands back: a
    value, or an exception of its own. *)
Inductive ext (A : Type) : Type :=
| ExtReturn (a : A)
| ExtThrow (msg : string).
Arguments ExtReturn {A} a.
Arguments ExtThrow {A} msg.

Definition call {A} (r : ext A) : outcome A :=
  match r with
  | ExtReturn a => Return a
  | ExtThrow msg => Throw (External msg)
  end.

(** ** Reading a property *)

(** The own property [k] of an object, if it has one. *)
Fixpoint ownProp (k : string) (kvs : list (string * val)) : option val :=
  match kvs with
  | [] => None
  | (k', v) :: rest => if String.eqb k' k then Some v else ownProp k rest
  end.

(** The members of Object.prototype, which every plain object inherits:
    eleven functions, and the accessor [__proto__] that reads as
    Object.prototype itself. *)
Definition objectPrototype : list (string * val) :=
  [ ("constructor", VNative true "Object");
    ("__defineGetter__", VNative true "Object.prototype.__defineGetter__");
    ("__defineSetter__", VNative true "Object.prototype.__defineSetter__");
    ("hasOwnProperty", VNative true "Object.prototype.hasOwnProperty");
    ("__lookupGetter__", VNative true "Object.prototype.__lookupGetter__");
    ("__lookupSetter__", VNative true "Object.prototype.__lookupSetter__");
    ("isPrototypeOf", VNative true "Object.prototype.isPrototypeOf");
    ("propertyIsEnumerable", VNative true "Object.prototype.propertyIsEnumerable");
    ("toString", VNative true "Object.prototype.toString");
    ("valueOf", VNative true "Object.prototype.valueOf");
    ("__proto__", VNative false "Object.prototype");
    ("toLocaleString", VNative true "Object.prototype.toLocaleString") ].

Definition inherited (k : string) : option val := ownProp k objectPrototype.

(** [o[k]] for a plain object: its own property, else the inherited
    member, else undefined. *)
Definition readProp (k : string) (kvs : list (string * val)) : val :=
  match ownProp k kvs with
  | Some v => v
  | None => default VUndefined (inherited k)
  end.

(** [o[k]]: reading a property of [undefined] or [null] throws; a plain
    object is read as above; what any other value holds under [k] (the
    length and the characters of a string, the elements of an array, the
    methods of either, the properties of a built-in) is what the host
    says, [hostGet]. *)
Definition get (hostGet : val -> string -> ext val) (o : val) (k : string) : outcome val :=
  match o with
  | VUndefined | VNull => Throw TypeError
  | VObj kvs => Return (readProp k kvs)
  | _ => call (hostGet o k)
  end.

(** ** Schemas *)

Record FieldDef := { f_name : string; f_type : string }.

Abbreviation Schema := (gmap string (list FieldDef)).

(** A root type as the functions receive it: a string, or [undefined] when
    [sanitizeData] dropped the [primaryType] property. *)
Inductive TypeKey : Type :=
| KUndefined
| KName (s : string).

Global Instance TypeKey_eq_dec : EqDecision TypeKey.
Proof. solve_decision. Defined.

(** The property key and the text of [`${type}`]. *)
Definition keyString (k : TypeKey) : string :=
  match k with
  | KUndefined => "undefined"
  | KName s => s
  end.

(** [types[type]], the schema being a plain object: the fields the schema
    holds under the name, or the member of Object.prototype of that name
    (a value that is not undefined, is truthy, cannot be iterated and has
    no [map]), or undefined. *)
Inductive member : Type :=
| Own (fields : list FieldDef)
| Inherited
| Missing.

Definition readType (types : Schema) (type : TypeKey) : member :=
  match types !! keyString type with
  | Some fields => Own fields
  | None => match inherited (keyString type) with
            | Some _ => Inherited
            | None => Missing
            end
  end.

(** [types[type] !== undefined] *)
Definition isDefined (m : member) : bool :=
  match m with
  | Missing => false
  | Own _ | Inherited => true
  end.

Definition includes (results : list TypeKey) (x : TypeKey) : bool :=
  bool_decide (x ∈ results).

(** ** TypedDataUtils.findTypeDependencies

    [results] is one array shared by the whole recursion: every call pushes
    onto it and returns it, so the array the inner [for..of] walks is
    [results] itself.  [absorb] is that inner loop, an index walk over the
    live array that would push any entry it does not find. *)
Fixpoint absorb (fuel i : nat) (results : list TypeKey) : outcome (list TypeKey) :=
  match results !! i with
  | None => Return results
  | Some dep =>
      match fuel with
      | O => OutOfFuel
      | S fuel' =>
          absorb fuel' (S i)
            (if includes results dep then results else results ++ [dep])
      end
  end.

(** The body of the loop over the fields: the recursive call [self] on
    the type of the field, and the inner loop over what it returns. *)
Definition visit (self : TypeKey -> list TypeKey -> outcome (list TypeKey))
    (field : FieldDef) (results : list TypeKey) : outcome (list TypeKey) :=
  deps ← self (KName (f_type field)) results;
  absorb (length deps) 0 deps.

(** A name the schema only inherits is not undefined: it is pushed, and
    the loop over its "fields" throws, for a built-in is not iterable. *)
Fixpoint findTypeDependencies_fuel (fuel : nat) (primaryType : TypeKey)
    (types : Schema) (results : list TypeKey) : outcome (list TypeKey) :=
  match fuel with
  | O => OutOfFuel
  | S fuel' =>
      if includes results primaryType || negb (isDefined (readType types primaryType))
      then Return results
      else
        let results := results ++ [primaryType] in
        match readType types primaryType with
        | Own fields =>
            foldM (visit (λ type results, findTypeDependencies_fuel fuel' type types results))
                  fields results
        | Inherited | Missing => Throw TypeError
        end
  end.

(** The call with the default [results = []].  Every call that recurses
    has pushed a type no call pushed before, so the depth of the
    recursion is bounded by the size of the schema
    ([findTypeDependencies_adequate]). *)
Definition findTypeDependencies (primaryType : TypeKey) (types : Schema)
    : outcome (list TypeKey) :=
  findTypeDependencies_fuel (S (S (size types))) primaryType types [].

(** Every type that can ever be pushed by a call that returns. *)
Definition candidates (types : Schema) : list TypeKey :=
  KUndefined :: (KName <$> (map_to_list types).*1).

(** Only types with a schema entry are in the array of a call that
    returns. *)
Definition all_defined (types : Schema) (results : list TypeKey) : Prop :=
  ∀ x, x ∈ results → is_Some (types !! keyString x).

(** The state of the walk after a call that returns: the array only
    grows, stays duplicate free and holds only defined types. *)
Definition walk_post (types : Schema) (k : TypeKey) (results r : list TypeKey) : Prop :=
  NoDup r ∧ all_defined types r ∧ (∃ ext, r = results ++ ext) ∧
  (k ∈ results ∨ is_Some (types !! keyString k) → k ∈ r).

(** [parts.join(sep)] *)
Definition join (sep : string) (parts : list string) : string := String.concat sep parts.

(** ** TypedDataUtils.encodeType *)

(** The order of [Array.prototype.sort] without a comparator: by the text
    of the elements, [undefined] after everything else. *)
Definition key_le (a b : TypeKey) : Prop :=
  match a, b with
  | _, KUndefined => True
  | KUndefined, KName _ => False
  | KName s, KName t => String.le s t
  end.

Global Instance key_le_dec : RelDecision key_le.
Proof. intros [|s] [|t]; simpl; apply _. Defined.

Global Instance key_le_trans : Transitive key_le.
Proof.
  intros [|a] [|b] [|c]; simpl; try done. apply (transitivity (R := String.le)).
Qed.

Global Instance key_le_total : Total key_le.
Proof. intros [|a] [|b]; simpl; auto. apply (total String.le). Qed.

Global Instance key_le_antisym : AntiSymm (=) key_le.
Proof.
  intros [|a] [|b]; simpl; try done. intros H1 H2. f_equal.
  by apply (anti_symm String.le).
Qed.

Definition sort (deps : list TypeKey) : list TypeKey := merge_sort key_le deps.

(** [`${type} ${name}`] *)
Definition fieldText (field : FieldDef) : string :=
  f_type field +:+ " " +:+ f_name field.

(** [`${type}(${children.map(...).join(",")})`] *)
Definition typeText (type : TypeKey) (children : list FieldDef) : string :=
  keyString type +:+ "(" +:+ join "," (fieldText <$> children) +:+ ")".
Arguments typeText : simpl never.

(** The body of the [for (const type of deps)] loop, [result] being the
    string built so far.  An inherited member passes the test
    [!children] and has no [map] to call. *)
Fixpoint encodeType_loop (types : Schema) (deps : list TypeKey) (result : string)
    : outcome string :=
  match deps with
  | [] => Return result
  | type :: deps' =>
      match readType types type with
      | Missing => Throw (NoTypeDefinition (keyString type))
      | Inherited => Throw TypeError
      | Own children => encodeType_loop types deps' (result +:+ typeText type children)
      end
  end.

Definition encodeType (primaryType : TypeKey) (types : Schema) : outcome string :=
  found ← findTypeDependencies primaryType types;
  let deps := filter (λ dep, dep ≠ primaryType) found in
  let deps := [primaryType] ++ sort deps in
  encodeType_loop types deps "".

(** ** Bytes and hexadecimal text *)

Global Instance byte_eq_dec : EqDecision Byte.byte := Byte.byte_eq_dec.

Definition byteVal (b : Byte.byte) : Z := Z.of_N (Byte.to_N b).

Definition byteOf (z : Z) : Byte.byte :=
  default Byte.x00 (Byte.of_N (Z.to_N (z mod 256))).

(** One lower-case hexadecimal digit. *)
Definition hexDigit (n : N) : ascii :=
  match n with
  | 0 => "0" | 1 => "1" | 2 => "2" | 3 => "3" | 4 => "4" | 5 => "5" | 6 => "6"
  | 7 => "7" | 8 => "8" | 9 => "9" | 10 => "a" | 11 => "b" | 12 => "c"
  | 13 => "d" | 14 => "e" | _ => "f"
  end%N%char.

Definition byteHex (b : Byte.byte) : string :=
  String (hexDigit (Byte.to_N b / 16)) (String (hexDigit (Byte.to_N b mod 16)) "").

(** [buf.toString("hex")] *)
Fixpoint toHex (bs : Buffer) : string :=
  match bs with
  | [] => ""
  | b :: bs' => byteHex b +:+ toHex bs'
  end.

(** [Buffer.from(s, "hex")]: pairs of digits, up to the first pair that is
    not hexadecimal, as Node decodes; a trailing single character is
    ignored.  Of the texts it is given here only those of negative numbers
    and of NaN hold anything but digits. *)
Fixpoint fromHex (s : string) : Buffer :=
  match s with
  | String c1 (String c2 rest) =>
      match HexString.ascii_to_digit c1, HexString.ascii_to_digit c2 with
      | Some hi, Some lo =>
          match Byte.of_N (16 * hi + lo) with
          | Some b => b :: fromHex rest
          | None => []
          end
      | _, _ => []
      end
  | _ => []
  end.

Definition isHexChar (c : ascii) : bool :=
  match HexString.ascii_to_digit c with Some _ => true | None => false end.

Fixpoint allChars (p : ascii -> bool) (s : string) : bool :=
  match s with
  | "" => true
  | String c s' => p c && allChars p s'
  end.

(** ** ethUtil

    Modelled from the spec: ethereumjs-util (with ethjs-util and bn.js
    underneath), which the helper module imports as [ethUtil] and only
    calls, is not under src/.  Section 4.4 of the specification says what
    the signature codec takes from it: r and s as signed integers brought
    back to their unsigned 256-bit two's-complement form, v in its
    shortest hexadecimal form, and the parsing of a 65-byte signature.
    The conversions to and from buffers and hexadecimal text follow the
    library's documented behaviour. *)
Module ethUtil.

(** [str.slice(0, 2) === "0x"] *)
Definition isHexPrefixed (str : string) : bool :=
  match str with
  | String "0" (String "x" _) => true
  | _ => false
  end.

Definition stripHexPrefix (str : string) : string :=
  if isHexPrefixed str then String.substring 2 (String.length str - 2) str else str.

Definition addHexPrefix (str : string) : string :=
  if isHexPrefixed str then str else "0x" +:+ str.

Definition padToEven (value : string) : string :=
  if Nat.odd (String.length value) then "0" +:+ value else value.

(** [value.match(/^0x[0-9A-Fa-f]*$/)] *)
Definition isHexString (value : string) : bool :=
  match value with
  | String "0" (String "x" digits) => allChars isHexChar digits
  | _ => false
  end.

(** [i.toString(16)] *)
Definition toString16 (i : Z) : string :=
  match i with
  | Z0 => "0"
  | Zpos p => HexString.Raw.of_pos p ""
  | Zneg p => "-" +:+ HexString.Raw.of_pos p ""
  end.

Definition intToHex (i : Z) : string := "0x" +:+ toString16 i.

Definition intToBuffer (i : Z) : Buffer :=
  let hex := intToHex i in
  fromHex (padToEven (String.substring 2 (String.length hex - 2) hex)).

(** The bytes of an ASCII string, [Buffer.from(v)]. *)
Definition utf8 (s : string) : Buffer :=
  (λ c, byteOf (Z.of_N (N_of_ascii c))) <$> list_ascii_of_string s.

(** [new BN(buffer)]: the big-endian unsigned value. *)
Definition BN (bs : Buffer) : Z := foldl (λ acc b, acc * 256 + byteVal b) 0 bs.

(** [bn.toArray()]: the shortest big-endian byte string, one zero byte
    for zero. *)
Fixpoint toArray_loop (fuel : nat) (n : Z) (acc : Buffer) : Buffer :=
  match fuel with
  | O => acc
  | S fuel' =>
      if (n =? 0)%Z then acc
      else toArray_loop fuel' (n / 256) (byteOf (n mod 256) :: acc)
  end.

Definition toArray (n : Z) : Buffer :=
  if (n =? 0)%Z then [Byte.x00] else toArray_loop (S (Z.to_nat (Z.log2 n))) n [].

(** [new BN(num).fromTwos(256)] *)
Definition fromSigned (num : Buffer) : Z :=
  let n := BN num in
  if Z.testbit n 255 then n - 2 ^ 256 else n.

(** [Buffer.from(num.toTwos(256).toArray())] *)
Definition toUnsigned (num : Z) : Buffer :=
  toArray (if (num <? 0)%Z then num + 2 ^ 256 else num).

Section with_array_bytes.
(** [Buffer.from(array)], the conversion of the elements of a plain
    array to bytes. *)
Context (arrayBytes : list val -> Buffer).

(** Modelled from the spec: [ethUtil.toBuffer], not under src/.  A buffer
    is returned as it is, a "0x" string of hex digits is decoded, any
    other string gives its bytes, a number goes through its hexadecimal
    text, null and undefined give the empty buffer, and a value of no
    such kind is an "invalid type". *)
Definition toBuffer (v : val) : outcome Buffer :=
  match v with
  | VBuffer bs => Return bs
  | VArr l => Return (arrayBytes l)
  | VStr s =>
      if isHexString s then Return (fromHex (padToEven (stripHexPrefix s)))
      else Return (utf8 s)
  | VNum i => Return (intToBuffer i)
  | VNaN => Return []          (* "NaN" holds no pair of hex digits *)
  | VNull | VUndefined => Return []
  | VBool _ | VObj _ | VNative _ _ => Throw InvalidType
  end.

Definition bufferToHex (buf : val) : outcome string :=
  buf ← toBuffer buf; Return ("0x" +:+ toHex buf).

(** [new BN(toBuffer(buf)).toNumber()] *)
Definition bufferToInt (buf : val) : outcome Z :=
  buf ← toBuffer buf;
  if (BN buf <? 2 ^ 53)%Z then Return (BN buf) else Throw NotSafeInteger.

Record SignatureParams := { sig_v : Z; sig_r : Buffer; sig_s : Buffer }.

(** Modelled from the spec: [ethUtil.fromRpcSig], not under src/.  "splits
    a 65-byte signature into r (bytes 0-31), s (bytes 32-63), v (byte 64,
    normalized to 27/28).  Fails with MalformedSignature if input is not
    exactly 65 bytes once hex-decoded." *)
Definition fromRpcSig (sig : val) : outcome SignatureParams :=
  sig ← toBuffer sig;
  if negb (length sig =? 65)%nat then Throw InvalidSignatureLength
  else
    let v := default 0 (byteVal <$> sig !! 64%nat) in
    let v := if (v <? 27)%Z then v + 27 else v in
    Return {| sig_v := v; sig_r := take 32 sig; sig_s := take 32 (drop 32 sig) |}.
End with_array_bytes.

End ethUtil.

(** ** The signature codec: padWithZeroes, concatSig, fromRpcSig *)

(** The [while (myString.length < length)] loop. *)
Fixpoint padWithZeroes_loop (fuel : nat) (myString : string) (length : nat) : option string :=
  if (String.length myString <? length)%nat then
    match fuel with
    | O => None
    | S fuel' => padWithZeroes_loop fuel' ("0" +:+ myString) length
    end
  else Some myString.

(** [length] rounds of the loop are enough: every round makes the string
    one character longer ([padWithZeroes_spec]). *)
Definition padWithZeroes (number : string) (length : nat) : string :=
  let myString := "" +:+ number in
  default myString (padWithZeroes_loop length myString length).

Section signature_codec.
Context (arrayBytes : list val -> Buffer).

(** [.toString("hex")] of the string that [addHexPrefix] returns is that
    string. *)
Definition concatSig (v : val) (r s : Buffer) : outcome string :=
  let rSig := ethUtil.fromSigned r in
  let sSig := ethUtil.fromSigned s in
  vSig ← ethUtil.bufferToInt arrayBytes v;
  let rStr := padWithZeroes (toHex (ethUtil.toUnsigned rSig)) 64 in
  let sStr := padWithZeroes (toHex (ethUtil.toUnsigned sSig)) 64 in
  let vStr := ethUtil.stripHexPrefix (ethUtil.intToHex vSig) in
  Return (ethUtil.addHexPrefix (rStr +:+ sStr +:+ vStr)).

Definition fromRpcSig (sig : val) : outcome ethUtil.SignatureParams :=
  signature ← ethUtil.toBuffer arrayBytes sig;
  let sigParams := ethUtil.fromRpcSig arrayBytes (VBuffer signature) in
  sigParams.
End signature_codec.

(** [n] characters "0" *)
Fixpoint zeros (n : nat) : string :=
  match n with
  | O => ""
  | S n' => "0" +:+ zeros n'
  end.

(** Leading zero bytes removed. *)
Fixpoint stripZeros (bs : Buffer) : Buffer :=
  match bs with
  | Byte.x00 :: bs' => stripZeros bs'
  | _ => bs
  end.

(** ** normalize *)

Definition toLowerChar (c : ascii) : ascii :=
  let n := nat_of_ascii c in
  if (65 <=? n)%nat && (n <=? 90)%nat then ascii_of_nat (n + 32) else c.

Fixpoint toLowerCase (s : string) : string :=
  match s with
  | "" => ""
  | String c s' => String (toLowerChar c) (toLowerCase s')
  end.

Section normalize.
Context (arrayBytes : list val -> Buffer).

(** [return;] returns undefined.  The last branch is what
    [input.toLowerCase()] does to a value that is no string; the [typeof]
    test before it leaves none. *)
Definition normalize (input : val) : outcome val :=
  if negb (truthy input) then Return VUndefined
  else
    input ← (if String.eqb (typeof input) "number" then
               buffer ← ethUtil.toBuffer arrayBytes input;
               hex ← ethUtil.bufferToHex arrayBytes (VBuffer buffer);
               Return (VStr hex)
             else Return input);
    if negb (String.eqb (typeof input) "string") then Throw (NormalizeInput (typeof input))
    else match input with
         | VStr s => Return (VStr (ethUtil.addHexPrefix (toLowerCase s)))
         | _ => Throw TypeError
         end.
End normalize.

(** ** Helpers of the struct encoder *)

Definition isUndefined (v : val) : bool :=
  match v with VUndefined => true | _ => false end.

(** [s.lastIndexOf(c)] for a one-character [c]: the last position of [c],
    or -1. *)
Fixpoint lastIndexOf_from (i : Z) (s : string) (c : ascii) (found : Z) : Z :=
  match s with
  | "" => found
  | String x s' => lastIndexOf_from (i + 1) s' c (if Ascii.eqb x c then i else found)
  end.

Definition lastIndexOf (s : string) (c : ascii) : Z := lastIndexOf_from 0 s c (-1).

(** ** The typed message *)

(** The falsy values ([falsyVal_falsy], [falsy_cases]). *)
Inductive falsy : Type := FUndefined | FNull | FFalse | FZero | FNaN | FEmpty.

Definition falsyVal (f : falsy) : val :=
  match f with
  | FUndefined => VUndefined
  | FNull => VNull
  | FFalse => VBool false
  | FZero => VNum 0
  | FNaN => VNaN
  | FEmpty => VStr ""
  end.

(** A property that TYPED_MESSAGE_SCHEMA names: not there, holding a falsy
    value, or holding a value of the type the schema gives it. *)
Inductive prop (A : Type) : Type :=
| Absent
| Falsy (f : falsy)
| Value (a : A).
Arguments Absent {A}.
Arguments Falsy {A} f.
Arguments Value {A} a.

Record TypedData := {
  td_types : prop Schema;
  td_primaryType : prop string;
  td_domain : prop (list (string * val));
  td_message : prop (list (string * val));
  td_extra : list (string * val)   (* every property the schema does not name *)
}.

(** The object [sanitizeData] builds: a recognized property is there, with
    its value, or it is not. *)
Record Sanitized := {
  s_types : option Schema;
  s_primaryType : option string;
  s_domain : option (list (string * val));
  s_message : option (list (string * val))
}.

(** [data[key] && (sanitizedData[key] = data[key])], [isTruthy] telling
    which values of the property's type are truthy. *)
Definition keep {A} (isTruthy : A -> bool) (p : prop A) : option A :=
  match p with
  | Value a => if isTruthy a then Some a else None
  | Absent | Falsy _ => None
  end.

Definition isObject {A} (_ : A) : bool := true.
Definition nonEmpty (s : string) : bool := negb (String.eqb s "").

(** The loop over the keys of TYPED_MESSAGE_SCHEMA.properties, which are
    types, primaryType, domain and message; no other property is ever
    copied.  An object is truthy, a string is unless it is empty. *)
Definition sanitizeData (data : TypedData) : Sanitized :=
  {| s_types := keep isObject (td_types data);
     s_primaryType := keep nonEmpty (td_primaryType data);
     s_domain := keep isObject (td_domain data);
     s_message := keep isObject (td_message data) |}.

(** Reading a property of the sanitized object. *)
Definition readKey (p : option string) : TypeKey :=
  match p with Some s => KName s | None => KUndefined end.

Definition readObject (p : option (list (string * val))) : val :=
  match p with Some kvs => VObj kvs | None => VUndefined end.

(** ** Entries of the legacy typed-data list *)

Record Entry := {
  e_type : string;
  e_name : option string;    (* [None]: the entry has no name *)
  e_value : val
}.

(** [!e.name] is false *)
Definition hasName (e : Entry) : bool :=
  match e_name e with
  | Some name => nonEmpty name
  | None => false
  end.

Record MsgParams (A : Type) := { mp_data : A }.
Arguments mp_data {A} _.

(** ** TypedDataUtils and the entry points *)

Section typed_data.
Context (arrayBytes : list val -> Buffer).
(** the properties of the values that are no plain objects *)
Context (hostGet : val -> string -> ext val).
(** the calls of [encodeData] the call stack has room for below the first *)
Context (frames : nat).
Context (keccak256 : Buffer -> Buffer).
(** ethereumjs-abi *)
Context (rawEncode : list string -> list val -> ext Buffer).
Context (solidityPack : list string -> list val -> ext Buffer).
(** ethereumjs-util: the curve and the personal-message hash *)
Context (ecsign : Buffer -> val -> ext ethUtil.SignatureParams).
Context (hashPersonalMessage : Buffer -> Buffer).

(** [ethUtil.sha3(a)] *)
Definition sha3 (a : val) : outcome Buffer :=
  a ← ethUtil.toBuffer arrayBytes a; Return (keccak256 a).

(** [ethAbi.soliditySHA3(types, values)] *)
Definition soliditySHA3 (types : list string) (values : list val) : outcome Buffer :=
  packed ← call (solidityPack types values); Return (keccak256 packed).

Definition hashType (primaryType : TypeKey) (types : Schema) : outcome Buffer :=
  encoded ← encodeType primaryType types; sha3 (VStr encoded).

(** What the loop of [encodeData] pushes for a field whose value is there:
    one type and one value, or nothing when it throws.  [self] is
    [this.encodeData]. *)
Definition encodeValue (self : TypeKey -> val -> outcome Buffer) (types : Schema)
    (field : FieldDef) (value : val) : outcome (string * val) :=
  if String.eqb (f_type field) "string" || String.eqb (f_type field) "bytes" then
    value ← sha3 value;
    Return ("bytes32", VBuffer value)
  else if isDefined (readType types (KName (f_type field))) then
    encoded ← self (KName (f_type field)) value;
    value ← sha3 (VBuffer encoded);
    Return ("bytes32", VBuffer value)
  else if (lastIndexOf (f_type field) "]" =? Z.of_nat (String.length (f_type field)) - 1)%Z then
    Throw ArraysUnimplemented
  else Return (f_type field, value).

(** The body of the loop of [encodeData]. *)
Definition encodeField (self : TypeKey -> val -> outcome Buffer) (types : Schema)
    (data : val) (field : FieldDef) (st : list string * list val)
    : outcome (list string * list val) :=
  let '(encodedTypes, encodedValues) := st in
  value ← get hostGet data (f_name field);
  if isUndefined value then Return (encodedTypes, encodedValues)
  else
    '(type, value) ← encodeValue self types field value;
    Return (encodedTypes ++ [type], encodedValues ++ [value]).

(** [encodeData] with [fuel] frames left on the call stack: with none the
    call throws the RangeError of the exhausted stack; a nested call has
    one frame less.  After [hashType] has returned, [types[primaryType]]
    is the list of fields; undefined and a built-in are not iterable. *)
Fixpoint encodeData_fuel (fuel : nat) (primaryType : TypeKey) (data : val)
    (types : Schema) : outcome Buffer :=
  match fuel with
  | O => Throw RangeError
  | S fuel' =>
      hash ← hashType primaryType types;
      match readType types primaryType with
      | Own fields =>
          '(encodedTypes, encodedValues) ←
            foldM (encodeField (λ type value, encodeData_fuel fuel' type value types) types data)
                  fields (["bytes32"], [VBuffer hash]);
          call (rawEncode encodedTypes encodedValues)
      | Inherited | Missing => Throw TypeError
      end
  end.

(** The call from outside: [frames] nested calls fit below it. *)
Definition encodeData (primaryType : TypeKey) (data : val) (types : Schema) : outcome Buffer :=
  encodeData_fuel (S frames) primaryType data types.

(** The nested call [this.encodeData(field.type, value, types)] of a call
    from outside. *)
Definition encodeNested (primaryType : TypeKey) (data : val) (types : Schema)
    : outcome Buffer :=
  encodeData_fuel frames primaryType data types.

Definition hashStruct (primaryType : TypeKey) (data : val) (types : Schema) : outcome Buffer :=
  encoded ← encodeData primaryType data types; sha3 (VBuffer encoded).

(** A field whose value is there: [data[field.name] !== undefined]. *)
Definition present (data : val) (field : FieldDef) : bool :=
  match get hostGet data (f_name field) with
  | Return value => negb (isUndefined value)
  | _ => false
  end.

(** The slot of one field in a call from outside. *)
Definition encodeSlot (types : Schema) (data : val) (field : FieldDef) : outcome (string * val) :=
  value ← get hostGet data (f_name field);
  encodeValue (λ type value, encodeNested type value types) types field value.

(** [sign]; reading a property of [undefined] is what [types[primaryType]]
    does first when [sanitizedData.types] is not there. *)
Definition sign (typedData : TypedData) : outcome Buffer :=
  let sanitizedData := sanitizeData typedData in
  let parts := [fromHex "1901"] in
  match s_types sanitizedData with
  | None => Throw TypeError
  | Some types =>
      part ← hashStruct (KName "EIP712Domain") (readObject (s_domain sanitizedData)) types;
      let parts := parts ++ [part] in
      part ← hashStruct (readKey (s_primaryType sanitizedData))
                        (readObject (s_message sanitizedData)) types;
      let parts := parts ++ [part] in
      sha3 (VBuffer (concat parts))
  end.

(** The hash the specification gives for a typed message:
    Keccak256(0x1901 ‖ hashStruct("EIP712Domain", domain, types) ‖
    hashStruct(primaryType, message, types)). *)
Definition signHash_spec (types : Schema) (primaryType : TypeKey) (domain message : val)
    : outcome Buffer :=
  domainHash ← hashStruct (KName "EIP712Domain") domain types;
  messageHash ← hashStruct primaryType message types;
  Return (keccak256 ([Byte.x19; Byte.x01] ++ domainHash ++ messageHash)).

(** The three callbacks of [typedData.map] in [typedSignatureHashBuffer]. *)
Definition entryData (e : Entry) : outcome val :=
  if String.eqb (e_type e) "bytes"
  then b ← ethUtil.toBuffer arrayBytes (e_value e); Return (VBuffer b)
  else Return (e_value e).

Definition entryType (e : Entry) : string := e_type e.

Definition entrySchema (error : exn) (e : Entry) : outcome val :=
  if negb (hasName e) then Throw error
  else Return (VStr (e_type e +:+ " " +:+ default "" (e_name e))).

Definition typedSignatureHashBuffer (typedData : list Entry) : outcome Buffer :=
  let error := ExpectNonEmptyArray in
  if (length typedData =? 0)%nat then Throw error
  else
    data ← mapM entryData typedData;
    let types := entryType <$> typedData in
    schema ← mapM (entrySchema error) typedData;
    h1 ← soliditySHA3 (repeat "string" (length typedData)) schema;
    h2 ← soliditySHA3 types data;
    soliditySHA3 ["bytes32"; "bytes32"] [VBuffer h1; VBuffer h2].

(** [this] at the top level of the module, which the arrow functions
    below close over. *)
Definition this : val := VUndefined.

(** [receiver.method(...)]: the property is read first.  The receiver in
    this module is [this], which is undefined, so the read throws and the
    call is never made; the call itself is not modelled. *)
Definition invoke (receiver : val) (method : string) : outcome val :=
  _ ← get hostGet receiver method; Throw TypeError.

Definition personalSign (privateKey : val) (msgParams : MsgParams val) : outcome string :=
  message ← ethUtil.toBuffer arrayBytes (mp_data msgParams);
  let msgHash := hashPersonalMessage message in
  sig ← call (ecsign msgHash privateKey);
  serialized ← (sig' ← invoke this "concatSig"; ethUtil.bufferToHex arrayBytes sig');
  Return serialized.

Definition signTypedDataLegacy (privateKey : val) (msgParams : MsgParams (list Entry))
    : outcome string :=
  msgHash ← typedSignatureHashBuffer (mp_data msgParams);
  sig ← call (ecsign msgHash privateKey);
  sig' ← invoke this "concatSig"; ethUtil.bufferToHex arrayBytes sig'.

Definition signTypedData (privateKey : val) (msgParams : MsgParams TypedData)
    : outcome string :=
  message ← sign (mp_data msgParams);
  sig ← call (ecsign message privateKey);
  sig' ← invoke this "concatSig"; ethUtil.bufferToHex arrayBytes sig'.

End typed_data.

(** ** Recovery: recoverPublicKey and the entry points around it *)

(** The message parameters of the recovering entry points: the data and
    the signature. *)
Record RecoverParams (A : Type) := { rp_data : A; rp_sig : val }.
Arguments rp_data {A} _.
Arguments rp_sig {A} _.

Section recovery.
Context (arrayBytes : list val -> Buffer).
Context (hostGet : val -> string -> ext val).
Context (frames : nat).
Context (keccak256 : Buffer -> Buffer).
Context (rawEncode : list string -> list val -> ext Buffer).
Context (solidityPack : list string -> list val -> ext Buffer).
Context (hashPersonalMessage : Buffer -> Buffer).
(** ethereumjs-util: the recovery of a public key and its address *)
Context (ethUtil_ecrecover : Buffer -> Z -> Buffer -> Buffer -> ext Buffer).
Context (publicToAddress : Buffer -> ext Buffer).

(** The two exported wrappers. *)
Definition toBuffer (value : val) : outcome Buffer := ethUtil.toBuffer arrayBytes value.

Definition bufferToHex (buffer : val) : outcome string := ethUtil.bufferToHex arrayBytes buffer.

Definition recoverPublicKey (hash : Buffer) (sig : val) : outcome Buffer :=
  signature ← ethUtil.toBuffer arrayBytes sig;
  sigParams ← ethUtil.fromRpcSig arrayBytes (VBuffer signature);
  call (ethUtil_ecrecover hash (ethUtil.sig_v sigParams) (ethUtil.sig_r sigParams)
          (ethUtil.sig_s sigParams)).

Definition getPublicKeyFor (msgParams : RecoverParams val) : outcome Buffer :=
  message ← ethUtil.toBuffer arrayBytes (rp_data msgParams);
  let msgHash := hashPersonalMessage message in
  recoverPublicKey msgHash (rp_sig msgParams).

Definition ecrecover (msg sig : val) : outcome string :=
  message ← toBuffer msg;
  let msgHash := hashPersonalMessage message in
  sigParams ← fromRpcSig arrayBytes sig;
  publicKey ← call (ethUtil_ecrecover msgHash (ethUtil.sig_v sigParams)
                      (ethUtil.sig_r sigParams) (ethUtil.sig_s sigParams));
  sender ← call (publicToAddress publicKey);
  senderHex ← bufferToHex (VBuffer sender);
  Return senderHex.

Definition recoverPersonalSignature (msgParams : RecoverParams val) : outcome string :=
  publicKey ← getPublicKeyFor msgParams;
  sender ← call (publicToAddress publicKey);
  senderHex ← ethUtil.bufferToHex arrayBytes (VBuffer sender);
  Return senderHex.

(** ["0x" + publicKey.toString("hex")] *)
Definition extractPublicKey (msgParams : RecoverParams val) : outcome string :=
  publicKey ← getPublicKeyFor msgParams;
  Return ("0x" +:+ toHex publicKey).

Definition typedSignatureHash (typedData : list Entry) : outcome string :=
  hashBuffer ← typedSignatureHashBuffer arrayBytes keccak256 solidityPack typedData;
  ethUtil.bufferToHex arrayBytes (VBuffer hashBuffer).

Definition recoverTypedSignatureLegacy (msgParams : RecoverParams (list Entry))
    : outcome string :=
  msgHash ← typedSignatureHashBuffer arrayBytes keccak256 solidityPack (rp_data msgParams);
  publicKey ← recoverPublicKey msgHash (rp_sig msgParams);
  sender ← call (publicToAddress publicKey);
  ethUtil.bufferToHex arrayBytes (VBuffer sender).

Definition recoverTypedSignature (msgParams : RecoverParams TypedData) : outcome string :=
  message ← sign arrayBytes hostGet frames keccak256 rawEncode (rp_data msgParams);
  publicKey ← recoverPublicKey message (rp_sig msgParams);
  sender ← call (publicToAddress publicKey);
  ethUtil.bufferToHex arrayBytes (VBuffer sender).

End recovery.

(** ** Auxiliary notions of the properties *)

(** A call halts when it returns or throws. *)
Definition halts {A} (m : outcome A) : Prop := m ≠ OutOfFuel.

(** The last character of a string. *)
Fixpoint lastChar (s : string) : option ascii :=
  match s with
  | "" => None
  | String c "" => Some c
  | String _ s' => lastChar s'
  end.

(** The typed message with other properties beside the four. *)
Definition withExtra (typedData : TypedData) (extra : list (string * val)) : TypedData :=
  {| td_types := td_types typedData; td_primaryType := td_primaryType typedData;
     td_domain := td_domain typedData; td_message := td_message typedData;
     td_extra := extra |}.

Definition withoutTypes (typedData : TypedData) : TypedData :=
  {| td_types := Absent; td_primaryType := td_primaryType typedData;
     td_domain := td_domain typedData; td_message := td_message typedData;
     td_extra := td_extra typedData |}.

Definition withoutPrimaryType (typedData : TypedData) : TypedData :=
  {| td_types := td_types typedData; td_primaryType := Absent;
     td_domain := td_domain typedData; td_message := td_message typedData;
     td_extra := td_extra typedData |}.

Definition withoutDomain (typedData : TypedData) : TypedData :=
  {| td_types := td_types typedData; td_primaryType := td_primaryType typedData;
     td_domain := Absent; td_message := td_message typedData;
     td_extra := td_extra typedData |}.

Definition withoutMessage (typedData : TypedData) : TypedData :=
  {| td_types := td_types typedData; td_primaryType := td_primaryType typedData;
     td_domain := td_domain typedData; td_message := Absent;
     td_extra := td_extra typedData |}.

(** The property holds a value, and the value is falsy. *)
Definition holdsFalsy {A} (isTruthy : A -> bool) (p : prop A) : Prop :=
  match p with
  | Absent => False
  | Falsy _ => True
  | Value a => isTruthy a = false
  end.

(** The "type name" string of an entry. *)
Definition schemaText (e : Entry) : val :=
  VStr (e_type e +:+ " " +:+ default "" (e_name e)).

(** [x] refers to [y]: [y] is the type of a field of the struct [x], and
    a struct of the schema itself. *)
Definition refersTo (types : Schema) (x y : TypeKey) : Prop :=
  ∃ fields field,
    types !! keyString x = Some fields ∧ field ∈ fields ∧
    y = KName (f_type field) ∧ is_Some (types !! f_type field).

(** The struct [x] has a field whose type the schema does not hold but
    inherits, such as constructor. *)
Definition stumbles (types : Schema) (x : TypeKey) : Prop :=
  ∃ fields field,
    types !! keyString x = Some fields ∧ field ∈ fields ∧
    readType types (KName (f_type field)) = Inherited.

(** [n] is not the name of a struct that is reached from [k]. *)
Definition unreached (types : Schema) (k : TypeKey) (n : string) : Prop :=
  ∀ x, rtc (refersTo types) k x → is_Some (types !! keyString x) → keyString x ≠ n.

(** What [hashType] throws for a name the schema does not hold. *)
Definition rejection (type : TypeKey) : exn :=
  if decide (keyString type ∈
       [ "constructor"; "__defineGetter__"; "__defineSetter__"; "hasOwnProperty";
         "__lookupGetter__"; "__lookupSetter__"; "isPrototypeOf"; "propertyIsEnumerable";
         "toString"; "valueOf"; "__proto__"; "toLocaleString" ])
  then TypeError else NoTypeDefinition (keyString type).

(** The walk from [k] comes to a name the schema only inherits: [k]
    itself, or the type of a field of a struct reached from [k]. *)
Definition meetsInherited (types : Schema) (k : TypeKey) : Prop :=
  readType types k = Inherited ∨ ∃ x, rtc (refersTo types) k x ∧ stumbles types x.

(** What a call of the walk that returns leaves behind: the array it was
    given, then the types it pushed, [k] first; every pushed type is
    reachable from [k] and has all of its fields walked, and everything a
    pushed type refers to is in the array. *)
Definition walk_reach (types : Schema) (k : TypeKey) (results r : list TypeKey) : Prop :=
  (k ∉ results → is_Some (types !! keyString k) → ∃ ext, r = results ++ k :: ext) ∧
  (k ∉ results → readType types k ≠ Inherited) ∧
  (∀ x, x ∈ r → x ∉ results → is_Some (types !! keyString k) ∧ rtc (refersTo types) k x) ∧
  (∀ x y, x ∈ r → x ∉ results → refersTo types x y → y ∈ r) ∧
  (∀ x, x ∈ r → x ∉ results → ¬ stumbles types x) ∧
  (∀ x, x ∈ r → x ∉ results → x = k ∨ ∃ s, x = KName s).

(** What a call of the walk does, by its outcome. *)
Definition walk_outcome (types : Schema) (k : TypeKey) (results : list TypeKey)
    (run : outcome (list TypeKey)) : Prop :=
  match run with
  | Return r => walk_post types k results r ∧ walk_reach types k results r
  | Throw e => e = TypeError ∧ meetsInherited types k
  | OutOfFuel => False
  end.

(** A field type that is handed to the encoder as it is: not string or
    bytes, neither held by the schema nor inherited by it, and not taken
    for an array. *)
Definition plainType (types : Schema) (type : string) : Prop :=
  type ≠ "string" ∧ type ≠ "bytes" ∧ types !! type = None ∧
  (type ∉ [ "constructor"; "__defineGetter__"; "__defineSetter__"; "hasOwnProperty";
            "__lookupGetter__"; "__lookupSetter__"; "isPrototypeOf"; "propertyIsEnumerable";
            "toString"; "valueOf"; "__proto__"; "toLocaleString" ]) ∧
  type ≠ "" ∧ lastChar type ≠ Some "]"%char.

(** The object [d] holds the property [k] with the value [v]. *)
Definition holds (d : list (string * val)) (k : string) (v : val) : Prop :=
  ∃ before after, d = before ++ (k, v) :: after ∧ k ∉ before.*1.

(** [bs] with zero bytes in front, up to [n] bytes. *)
Definition padLeft (n : nat) (bs : Buffer) : Buffer := repeat Byte.x00 (n - length bs) ++ bs.

(** ** Sample data

    Stand-ins for the external collaborators, for the worked examples:
    bytes pass through the "hash" unchanged and the encoders concatenate
    the buffers they are given. *)

Definition sampleArrayBytes (l : list val) : Buffer := [].

Definition sampleKeccak (bs : Buffer) : Buffer := bs.

Definition sampleEncode (ts : list string) (vs : list val) : ext Buffer :=
  ExtReturn (concat ((λ v, match v with VBuffer bs => bs | _ => [] end) <$> vs)).

Definition sampleEcsign (hash : Buffer) (privateKey : val) : ext ethUtil.SignatureParams :=
  ExtReturn {| ethUtil.sig_v := 27; ethUtil.sig_r := repeat Byte.x01 32;
               ethUtil.sig_s := repeat Byte.x02 32 |}.

(** A schema whose struct refers to itself. *)
Definition friendSchema : Schema :=
  {[ "Person" := [ {| f_name := "name"; f_type := "string" |};
                   {| f_name := "friend"; f_type := "Person" |} ] ]}.

Definition personSchema : Schema :=
  {[ "Person" := [ {| f_name := "name"; f_type := "string" |};
                   {| f_name := "wallet"; f_type := "address" |} ];
     "Mail" := [ {| f_name := "from"; f_type := "Person" |};
                 {| f_name := "to"; f_type := "Person" |};
                 {| f_name := "contents"; f_type := "string" |} ] ]}.

(** A Person without a wallet: the encoding has the slot of the type hash
    and the slot of the name, and none for the wallet. *)
Definition bobNoWallet : list (string * val) := [("name", VStr "Bob")].

(** A struct with an array field. *)
Definition listSchema : Schema :=
  {[ "Batch" := [ {| f_name := "id"; f_type := "uint256" |};
                  {| f_name := "amounts"; f_type := "uint256[]" |} ] ]}.

Definition batch : val := VObj [("id", VNum 1); ("amounts", VArr [VNum 1; VNum 2])].

Definition ownedSchema : Schema :=
  {[ "Owned" := [ {| f_name := "owner"; f_type := "Owner" |};
                  {| f_name := "amounts"; f_type := "uint256[]" |} ];
     "Owner" := [ {| f_name := "name"; f_type := "string" |} ] ]}.

Definition ownedByNull : val := VObj [("owner", VNull); ("amounts", VArr [VNum 1])].

Definition emptyNameSchema : Schema := {[ "EIP712Domain" := []; "" := [] ]}.

Definition emptyNameMessage : TypedData :=
  {| td_types := Value emptyNameSchema; td_primaryType := Value "";
     td_domain := Value []; td_message := Value []; td_extra := [] |}.

Definition mailMessage : TypedData :=
  {| td_types := Value (<["EIP712Domain" := [ {| f_name := "name"; f_type := "string" |} ]]>
                          personSchema);
     td_primaryType := Value "Person";
     td_domain := Value [("name", VStr "Ether Mail")];
     td_message := Value bobNoWallet;
     td_extra := [("comment", VStr "not part of the hash")] |}.

(** A message whose primaryType is the empty string and one whose domain
    is null. *)
Definition nullDomainMessage : TypedData :=
  {| td_types := td_types mailMessage; td_primaryType := td_primaryType mailMessage;
     td_domain := Falsy FNull; td_message := td_message mailMessage;
     td_extra := [] |}.

Definition legacyEntries : list Entry :=
  [ {| e_type := "string"; e_name := Some "Message"; e_value := VStr "Hi, Alice!" |};
    {| e_type := "uint32"; e_name := Some "A number"; e_value := VNum 1337 |} ].

Definition namelessEntries : list Entry :=
  [ {| e_type := "string"; e_name := None; e_value := VStr "Hi, Alice!" |} ].

(** Stand-ins for the recovery of a key and of its address. *)
Definition sampleEcrecover (hash : Buffer) (v : Z) (r s : Buffer) : ext Buffer :=
  ExtReturn (r ++ s).

Definition sampleAddress (publicKey : Buffer) : ext Buffer := ExtReturn (take 20 publicKey).

(** A struct of two numbers beside a struct it does not refer to, and a
    point that holds one property more than the struct declares. *)
Definition pointSchema : Schema :=
  {[ "Point" := [ {| f_name := "x"; f_type := "int256" |};
                  {| f_name := "y"; f_type := "int256" |} ];
     "Label" := [ {| f_name := "text"; f_type := "string" |} ] ]}.

Definition point : list (string * val) := [("y", VNum 2); ("colour", VStr "red"); ("x", VNum 1)].

(** A signature of 65 bytes, as text. *)
Definition sampleR : Buffer := repeat Byte.xff 32.
Definition sampleS : Buffer := repeat Byte.x00 31 ++ [Byte.x07].
Definition sampleSignature : val := VStr ("0x" +:+ toHex (sampleR ++ sampleS ++ [Byte.x1b])).

(** What the host says of strings, arrays and built-in functions, as far
    as the examples go: the length of a string or an array, and the
    constructor of a function, which is Function. *)
Definition sampleHostGet (o : val) (k : string) : ext val :=
  match o with
  | VStr s =>
      ExtReturn (if String.eqb k "length" then VNum (Z.of_nat (String.length s))
                 else VUndefined)
  | VArr l =>
      ExtReturn (if String.eqb k "length" then VNum (Z.of_nat (length l)) else VUndefined)
  | VNative true _ =>
      ExtReturn (if String.eqb k "constructor" then VNative true "Function" else VUndefined)
  | _ => ExtReturn VUndefined
  end.

(** Room for eight nested calls. *)
Definition sampleFrames : nat := 8.

(** An encoder that shows the slots it was given: 32 zero bytes each. *)
Definition sampleLayout (ts : list string) (vs : list val) : ext Buffer :=
  ExtReturn (repeat Byte.x00 (32 * length vs)).

(** A struct with a field named like a member of Object.prototype, a struct
    with a field typed like one, and a struct that refers to itself under
    such a name. *)
Definition stringerSchema : Schema :=
  {[ "Stringer" := [ {| f_name := "toString"; f_type := "bool" |} ] ]}.

Definition builtinSchema : Schema :=
  {[ "Mail" := [ {| f_name := "x"; f_type := "constructor" |} ] ]}.

Definition arrayThenBuiltinSchema : Schema :=
  {[ "T" := [ {| f_name := "a"; f_type := "uint256[]" |};
              {| f_name := "b"; f_type := "constructor" |} ] ]}.

Definition loopSchema : Schema :=
  {[ "T" := [ {| f_name := "constructor"; f_type := "T" |} ] ]}.

(** A named entry of type bytes whose value [toBuffer] does not take. *)
Definition bytesEntries : list Entry :=
  [ {| e_type := "bytes"; e_name := Some "payload"; e_value := VBool true |} ].

(** * Properties *)

(** ** The walk over the type graph *)

Section type_graph.
Context (types : Schema).

Lemma absorb_id fuel i (results : list TypeKey) :
  (length results ≤ i + fuel)%nat → absorb fuel i results = Return results.
Proof.
  revert i results. induction fuel as [|fuel IH]; intros i results Hlen; simpl.
  - destruct (results !! i) eqn:E; [|done].
    apply lookup_lt_Some in E. lia.
  - destruct (results !! i) as [dep|] eqn:E; [|done].
    assert (includes results dep = true) as ->.
    { apply bool_decide_eq_true. by eapply list_elem_of_lookup_2. }
    apply IH. lia.
Qed.

Lemma readType_Own k fields : types !! keyString k = Some fields → readType types k = Own fields.
Proof. intros H. unfold readType. by rewrite H. Qed.

Lemma readType_Own_inv k fields : readType types k = Own fields → types !! keyString k = Some fields.
Proof.
  unfold readType. destruct (types !! keyString k); [by intros [= ->]|].
  by destruct (inherited _).
Qed.

Lemma readType_None k :
  types !! keyString k = None →
  readType types k = match inherited (keyString k) with Some _ => Inherited | None => Missing end.
Proof. intros H. unfold readType. by rewrite H. Qed.

Lemma readType_not_Own k :
  readType types k = Inherited ∨ readType types k = Missing → types !! keyString k = None.
Proof.
  unfold readType. destruct (types !! keyString k); [by intros [?|?]|done].
Qed.

Lemma visit_call fuel field (results : list TypeKey) :
  visit (λ type results, findTypeDependencies_fuel fuel type types results) field results =
  deps ← findTypeDependencies_fuel fuel (KName (f_type field)) types results;
  absorb (length deps) 0 deps.
Proof. done. Qed.

(** One call of the walk. *)
Lemma walk_step fuel k (results : list TypeKey) :
  findTypeDependencies_fuel (S fuel) k types results =
  if includes results k then Return results
  else match readType types k with
       | Missing => Return results
       | Inherited => Throw TypeError
       | Own fields =>
           foldM (visit (λ type results, findTypeDependencies_fuel fuel type types results))
                 fields (results ++ [k])
       end.
Proof.
  simpl. destruct (includes results k); [done|]. by destruct (readType types k).
Qed.

Lemma candidates_length : length (candidates types) = S (size types).
Proof.
  unfold candidates. simpl. by rewrite !length_fmap, length_map_to_list.
Qed.

Lemma elem_of_candidates k :
  is_Some (types !! keyString k) → k ∈ candidates types.
Proof.
  intros [fields Hf]. destruct k as [|s]; [left|right].
  apply list_elem_of_fmap. exists s. split; [done|].
  apply list_elem_of_fmap. exists (s, fields). split; [done|].
  by apply elem_of_map_to_list.
Qed.

Lemma results_bound (results : list TypeKey) :
  NoDup results → all_defined types results →
  (length results ≤ S (size types))%nat.
Proof.
  intros Hnd Hdef. rewrite <- candidates_length.
  apply submseteq_length, NoDup_submseteq; [done|].
  intros x Hx. by apply elem_of_candidates, Hdef.
Qed.

Lemma all_defined_nil : all_defined types [].
Proof. intros x Hx. by apply elem_of_nil in Hx. Qed.

(** Whatever stumbles, and whatever refers to something, is a struct of
    the schema. *)
Lemma reach_defined a x :
  rtc (refersTo types) a x → is_Some (types !! keyString x) → is_Some (types !! keyString a).
Proof.
  intros Hrtc Hx. destruct Hrtc as [|a y x (fields & _ & Hf & _) _]; [done|eauto].
Qed.

Lemma stumbles_defined x : stumbles types x → is_Some (types !! keyString x).
Proof. intros (fields & _ & Hf & _). eauto. Qed.

(** What the walk does, call by call: with fuel enough for the types that
    are still to be pushed it returns or throws a TypeError, and it throws
    only when it comes to a name the schema only inherits. *)
Lemma walk_run fuel :
  ∀ k (results : list TypeKey),
    NoDup results → all_defined types results →
    (S (size types) - length results < fuel)%nat →
    walk_outcome types k results (findTypeDependencies_fuel fuel k types results).
Proof.
  induction fuel as [|fuel IH]; intros k results Hnd Hsub Hfuel; [lia|].
  rewrite walk_step. unfold includes. case_bool_decide as Hin.
  { split; split_and!; try done. exists []. by rewrite app_nil_r. }
  destruct (readType types k) as [fields| |] eqn:Hread.
  3:{ pose proof (readType_not_Own k (or_intror Hread)) as Hk.
      split; split_and!; try done.
      - exists []. by rewrite app_nil_r.
      - intros [?|[? ?]]; [done|congruence].
      - intros _ [? ?]. congruence.
      - intros _. congruence. }
  2:{ split; [done|]. by left. }
  apply readType_Own_inv in Hread as Hk.
  assert (NoDup (results ++ [k])) as Hnd1.
  { apply NoDup_app. split_and!; [done| |apply NoDup_singleton].
    intros x Hx ->%list_elem_of_singleton. done. }
  assert (all_defined types (results ++ [k])) as Hsub1.
  { intros x [Hx| ->%list_elem_of_singleton]%elem_of_app; [by apply Hsub|].
    by exists fields. }
  pose proof (results_bound _ Hnd1 Hsub1) as Hb1. rewrite length_app in Hb1. simpl in Hb1.
  assert (∀ todo done acc,
            fields = done ++ todo →
            NoDup acc → all_defined types acc →
            (∃ ext, acc = results ++ k :: ext) →
            (∀ x, x ∈ acc → x ∉ results → rtc (refersTo types) k x) →
            (∀ x y, x ∈ acc → x ∉ results → x ≠ k → refersTo types x y → y ∈ acc) →
            (∀ x, x ∈ acc → x ∉ results → x ≠ k → ¬ stumbles types x) →
            (∀ x, x ∈ acc → x ∉ results → x = k ∨ ∃ s, x = KName s) →
            (∀ field, field ∈ done → is_Some (types !! f_type field) →
                      KName (f_type field) ∈ acc) →
            (∀ field, field ∈ done → readType types (KName (f_type field)) ≠ Inherited) →
            walk_outcome types k results
              (foldM (visit (λ type results, findTypeDependencies_fuel fuel type types results))
                     todo acc)) as Hloop.
  { induction todo as [|field todo IHt];
      intros done acc Hsplit Ha1 Ha2 [ext Hext] Hsound Hclosed Hclean Hnames Hdone Hplain.
    { rewrite app_nil_r in Hsplit. subst done. cbn [foldM]. split; split_and!.
      - done.
      - done.
      - exists (k :: ext). done.
      - intros _. rewrite Hext. apply elem_of_app. right. by left.
      - intros _ _. eauto.
      - intros _. rewrite (readType_Own _ _ Hk). done.
      - intros x Hx Hnr. split; [eauto|by apply Hsound].
      - intros x y Hx Hnr Hxy. destruct (decide (x = k)) as [->|Hne]; [|by eapply Hclosed].
        destruct Hxy as (fields' & field & Hf & Hfield & -> & Hdef).
        rewrite Hk in Hf. injection Hf as <-. by apply Hdone.
      - intros x Hx Hnr. destruct (decide (x = k)) as [->|Hne]; [|by apply Hclean].
        intros (fields' & field & Hf & Hfield & Hinh).
        rewrite Hk in Hf. injection Hf as <-. by eapply Hplain.
      - done. }
    assert (field ∈ fields) as Hfield.
    { rewrite Hsplit. apply elem_of_app. right. by left. }
    cbn [foldM]. rewrite visit_call.
    assert (S (size types) - length acc < fuel)%nat as Hfuel'.
    { rewrite Hext, length_app. simpl. lia. }
    pose proof (IH (KName (f_type field)) acc Ha1 Ha2 Hfuel') as Hcall.
    destruct (findTypeDependencies_fuel fuel (KName (f_type field)) types acc)
      as [r'|e|]; cbn [mbind outcome_bind]; unfold walk_outcome in Hcall; [| |done].
    2:{ destruct Hcall as [-> Hmeets]. split; [done|]. right.
        destruct Hmeets as [Hinh|(x & Hrtc & Hst)].
        - exists k. split; [apply rtc_refl|]. by exists fields, field.
        - exists x. split; [|done]. eapply rtc_l; [|exact Hrtc].
          exists fields, field. split_and!; [done|done|done|].
          apply (reach_defined _ _ Hrtc), (stumbles_defined _ Hst). }
    destruct Hcall as [(Hr1 & Hr2 & [ext' Hr3] & Hroot') (_ & Hni & Hsound' & Hclosed' & Hclean' & Hnames')].
    rewrite absorb_id by lia. cbn [mbind outcome_bind].
    assert (∀ x, x ∈ acc → x ∈ r') as Hmono.
    { intros x Hx. rewrite Hr3. apply elem_of_app. by left. }
    apply (IHt (done ++ [field]) r'); [by rewrite <- app_assoc|done|done| | | | | | |].
    - exists (ext ++ ext'). by rewrite Hr3, Hext, <- !app_assoc.
    - intros x Hx Hnr. destruct (decide (x ∈ acc)) as [Ha|Ha]; [by apply Hsound|].
      destruct (Hsound' x Hx Ha) as [Hdef Hrtc].
      eapply rtc_l; [|exact Hrtc]. exists fields, field. done.
    - intros x y Hx Hnr Hnk Hxy. destruct (decide (x ∈ acc)) as [Ha|Ha].
      + apply Hmono. by eapply Hclosed.
      + by eapply Hclosed'.
    - intros x Hx Hnr Hnk. destruct (decide (x ∈ acc)) as [Ha|Ha]; [by apply Hclean|].
      by apply Hclean'.
    - intros x Hx Hnr. destruct (decide (x ∈ acc)) as [Ha|Ha]; [by apply Hnames|].
      destruct (Hnames' x Hx Ha) as [->|?]; [right; eauto|by right].
    - intros f [Hf| ->%list_elem_of_singleton]%elem_of_app Hdef.
      + apply Hmono. by apply Hdone.
      + apply Hroot'. by right.
    - intros f [Hf| ->%list_elem_of_singleton]%elem_of_app; [by apply Hplain|].
      destruct (decide (KName (f_type field) ∈ acc)) as [Ha|Ha]; [|by apply Hni].
      destruct (Ha2 _ Ha) as [fs Hfs]. by rewrite (readType_Own _ _ Hfs). }
  apply (Hloop fields [] (results ++ [k])); try done.
  - by exists [].
  - intros x [Hx| ->%list_elem_of_singleton]%elem_of_app Hnr; [done|]. apply rtc_refl.
  - intros x y [Hx| ->%list_elem_of_singleton]%elem_of_app Hnr Hnk; done.
  - intros x [Hx| ->%list_elem_of_singleton]%elem_of_app Hnr Hnk; done.
  - intros x [Hx| ->%list_elem_of_singleton]%elem_of_app Hnr; [done|by left].
  - intros field Hf. by apply elem_of_nil in Hf.
  - intros field Hf. by apply elem_of_nil in Hf.
Qed.

(** The wrapper supplies fuel enough. *)
Lemma findTypeDependencies_outcome k :
  walk_outcome types k [] (findTypeDependencies k types).
Proof.
  apply walk_run; [constructor|apply all_defined_nil|simpl; lia].
Qed.

Lemma halts_findTypeDependencies k : findTypeDependencies k types ≠ OutOfFuel.
Proof.
  pose proof (findTypeDependencies_outcome k) as H. intros E. by rewrite E in H.
Qed.

Lemma foldM_agree {A S} (body1 body2 : A -> S -> outcome S) (xs : list A) (st : S) :
  (∀ x st, x ∈ xs → body1 x st ≠ OutOfFuel → body2 x st = body1 x st) →
  foldM body1 xs st ≠ OutOfFuel → foldM body2 xs st = foldM body1 xs st.
Proof.
  revert st. induction xs as [|x xs IH]; intros st Hbody Hh; [done|].
  cbn [foldM] in *.
  assert (body1 x st ≠ OutOfFuel) as Hx by (intros E; by rewrite E in Hh).
  rewrite Hbody by (done || by left).
  destruct (body1 x st) as [st'| |]; cbn [mbind outcome_bind] in *; [|done|done].
  apply IH; [|done]. intros y st'' Hy. apply Hbody. by right.
Qed.

(** More fuel never changes an answer. *)
Lemma findTypeDependencies_fuel_mono fuel :
  ∀ fuel' k (results : list TypeKey),
    (fuel ≤ fuel')%nat →
    findTypeDependencies_fuel fuel k types results ≠ OutOfFuel →
    findTypeDependencies_fuel fuel' k types results
    = findTypeDependencies_fuel fuel k types results.
Proof.
  induction fuel as [|fuel IH]; intros fuel' k results Hle Hh; [done|].
  destruct fuel' as [|fuel']; [lia|]. rewrite !walk_step in *.
  destruct (includes results k); [done|].
  destruct (readType types k) as [fields| |]; [|done|done].
  apply foldM_agree; [|done]. intros field acc _ Hv. rewrite !visit_call in *.
  assert (findTypeDependencies_fuel fuel (KName (f_type field)) types acc ≠ OutOfFuel) as Hc
    by (intros E; by rewrite E in Hv).
  rewrite IH by (done || lia). done.
Qed.

Lemma findTypeDependencies_adequate fuel k :
  (S (S (size types)) ≤ fuel)%nat →
  findTypeDependencies_fuel fuel k types [] = findTypeDependencies k types.
Proof.
  intros Hfuel. unfold findTypeDependencies.
  apply findTypeDependencies_fuel_mono; [done|apply halts_findTypeDependencies].
Qed.

(** The walk throws exactly when it comes to a name the schema only
    inherits. *)
Lemma findTypeDependencies_throws k :
  findTypeDependencies k types = Throw TypeError ↔ meetsInherited types k.
Proof.
  pose proof (findTypeDependencies_outcome k) as Hout. split.
  - intros E. rewrite E in Hout. unfold walk_outcome in Hout. by destruct Hout.
  - intros Hmeets. destruct (findTypeDependencies k types) as [r|e|];
      unfold walk_outcome in Hout; [|by destruct Hout as [-> _]|done].
    exfalso. destruct Hout as [(_ & _ & _ & Hroot) (_ & Hni & _ & Hclosed & Hclean & _)].
    destruct Hmeets as [Hinh|(x & Hrtc & Hst)].
    { by apply Hni; [apply not_elem_of_nil|]. }
    assert (x ∈ r) as Hx.
    { pose proof (reach_defined _ _ Hrtc (stumbles_defined _ Hst)) as Hdef.
      clear Hst. revert x Hrtc. apply (rtc_ind_r (λ x, x ∈ r)).
      - apply Hroot. by right.
      - intros x y _ Hxy Hx. eapply Hclosed; [exact Hx|apply not_elem_of_nil|done]. }
    by apply (Hclean x Hx); [apply not_elem_of_nil|].
Qed.

End type_graph.

(** ** Strings *)

(** [String.append] does not unfold under [simpl]; these two equations are
    its definition. *)
Lemma append_nil_l (b : string) : "" +:+ b = b.
Proof. reflexivity. Qed.

Lemma append_cons (ch : ascii) (a b : string) : String ch a +:+ b = String ch (a +:+ b).
Proof. reflexivity. Qed.

Lemma append_assoc (a b c : string) : (a +:+ b) +:+ c = a +:+ (b +:+ c).
Proof. induction a as [|ch a IH]; [done|]. by rewrite !append_cons, IH. Qed.

Lemma append_nil_r (a : string) : a +:+ "" = a.
Proof. induction a as [|ch a IH]; [done|]. by rewrite append_cons, IH. Qed.

Lemma length_append (a b : string) :
  String.length (a +:+ b) = (String.length a + String.length b)%nat.
Proof. induction a as [|ch a IH]; [done|]. rewrite append_cons. simpl. by rewrite IH. Qed.

(** ** encodeType *)

Section encode_type.
Context (types : Schema).

(** The text [encodeType] writes for one type. *)
Lemma typeText_format (type : TypeKey) (children : list FieldDef) :
  typeText type children =
  keyString type +:+ "(" +:+
  String.concat "," ((λ field, f_type field +:+ " " +:+ f_name field) <$> children) +:+ ")".
Proof. reflexivity. Qed.

Lemma encodeType_loop_own (deps : list TypeKey) (acc : string) :
  all_defined types deps →
  encodeType_loop types deps acc =
  Return (acc +:+ foldr String.append ""
                    ((λ type, typeText type (default [] (types !! keyString type))) <$> deps)).
Proof.
  revert acc. induction deps as [|type deps IH]; intros acc Hdef.
  { cbn. by rewrite append_nil_r. }
  destruct (Hdef type) as [children Hc]; [by left|].
  cbn [encodeType_loop fmap list_fmap foldr]. rewrite (readType_Own _ _ _ Hc), Hc.
  cbn [default]. rewrite IH, append_assoc; [done|].
  intros x Hx. apply Hdef. by right.
Qed.

Lemma sort_elem_of (x : TypeKey) (l : list TypeKey) : x ∈ sort l ↔ x ∈ l.
Proof. unfold sort. by rewrite merge_sort_Permutation. Qed.

(** When the walk returns, [encodeType] writes the root and then the
    others, or rejects a root that is undefined in the schema. *)
Lemma encodeType_found (root : TypeKey) (found : list TypeKey) :
  findTypeDependencies root types = Return found →
  encodeType root types =
    match types !! keyString root with
    | None => Throw (NoTypeDefinition (keyString root))
    | Some _ =>
        Return (foldr String.append ""
                  ((λ type, typeText type (default [] (types !! keyString type)))
                     <$> root :: sort (filter (λ dep, dep ≠ root) found)))
    end.
Proof.
  intros Hfound. pose proof (findTypeDependencies_outcome types root) as Hout.
  rewrite Hfound in Hout. destruct Hout as [(_ & Hdef & _ & _) (_ & Hni & _)].
  unfold encodeType. rewrite Hfound. cbn [mbind outcome_bind app encodeType_loop].
  destruct (types !! keyString root) as [children|] eqn:Hroot.
  - rewrite (readType_Own _ _ _ Hroot), encodeType_loop_own.
    + cbn [fmap list_fmap foldr]. by rewrite Hroot, append_nil_l.
    + intros x [_ Hx]%sort_elem_of%list_elem_of_filter. by apply Hdef.
  - rewrite readType_None by done. destruct (inherited (keyString root)) eqn:Hinh; [|done].
    exfalso. apply Hni; [apply not_elem_of_nil|]. by rewrite readType_None, Hinh.
Qed.

Lemma encodeType_throws (root : TypeKey) (e : exn) :
  findTypeDependencies root types = Throw e → encodeType root types = Throw e.
Proof. intros H. unfold encodeType. by rewrite H. Qed.

Lemma halts_encodeType (root : TypeKey) : encodeType root types ≠ OutOfFuel.
Proof.
  destruct (findTypeDependencies root types) as [found|e|] eqn:E.
  - rewrite (encodeType_found _ _ E). by destruct (types !! keyString root).
  - by rewrite (encodeType_throws _ _ E).
  - by apply halts_findTypeDependencies in E.
Qed.

(** The others, which the walk pushed through the type of a field, are
    names, sorted by their text. *)
Lemma others_sorted (root : TypeKey) (found : list TypeKey) :
  findTypeDependencies root types = Return found →
  StronglySorted (λ a b, String.le (keyString a) (keyString b))
                 (sort (filter (λ dep, dep ≠ root) found)).
Proof.
  intros Hfound. pose proof (findTypeDependencies_outcome types root) as Hout.
  rewrite Hfound in Hout. destruct Hout as [_ (_ & _ & _ & _ & _ & Hnames)].
  assert (Forall (λ x, ∃ s, x = KName s) (sort (filter (λ dep, dep ≠ root) found))) as Hall.
  { apply Forall_forall. intros x [Hne Hx]%sort_elem_of%list_elem_of_filter.
    destruct (Hnames x Hx) as [->|?]; [apply not_elem_of_nil|done|done]. }
  assert (StronglySorted key_le (sort (filter (λ dep, dep ≠ root) found))) as Hs
    by (apply StronglySorted_merge_sort; apply _).
  induction Hs as [|x l Hs IH Hx]; [constructor|].
  apply Forall_cons in Hall as [[s ->] Hall]. constructor; [by apply IH|].
  apply Forall_forall. intros y Hy.
  pose proof (proj1 (Forall_forall _ _) Hx y Hy) as Hle.
  destruct (proj1 (Forall_forall _ _) Hall y Hy) as [t ->]. exact Hle.
Qed.

End encode_type.

(** ** The byte codec

    What the round trip of a signature rests on. *)

(** *** Bytes and their hexadecimal text *)

Lemma byteOf_byteVal (b : Byte.byte) : byteOf (byteVal b) = b.
Proof. destruct b; reflexivity. Qed.

Lemma byteVal_range (b : Byte.byte) : 0 ≤ byteVal b < 256.
Proof. unfold byteVal. pose proof (Byte.to_N_bounded b). lia. Qed.

Lemma fromHex_byteHex (b : Byte.byte) (rest : string) :
  fromHex (byteHex b +:+ rest) = b :: fromHex rest.
Proof. destruct b; reflexivity. Qed.

Lemma isHexPrefixed_byteHex (b : Byte.byte) (rest : string) :
  ethUtil.isHexPrefixed (byteHex b +:+ rest) = false.
Proof. destruct b; reflexivity. Qed.

Lemma allChars_byteHex (b : Byte.byte) (rest : string) :
  allChars isHexChar (byteHex b +:+ rest) = allChars isHexChar rest.
Proof. destruct b; reflexivity. Qed.

Lemma length_byteHex (b : Byte.byte) (rest : string) :
  String.length (byteHex b +:+ rest) = S (S (String.length rest)).
Proof. reflexivity. Qed.

Lemma fromHex_toHex_app (bs : Buffer) (rest : string) :
  fromHex (toHex bs +:+ rest) = bs ++ fromHex rest.
Proof.
  induction bs as [|b bs IH]; [done|].
  cbn [toHex]. by rewrite append_assoc, fromHex_byteHex, IH.
Qed.

Lemma fromHex_toHex (bs : Buffer) : fromHex (toHex bs) = bs.
Proof.
  rewrite <- (append_nil_r (toHex bs)), fromHex_toHex_app. cbn. by rewrite app_nil_r.
Qed.

Lemma toHex_app (a b : Buffer) : toHex (a ++ b) = toHex a +:+ toHex b.
Proof.
  induction a as [|x a IH]; [done|]. cbn [toHex app]. by rewrite IH, append_assoc.
Qed.

Lemma length_toHex (bs : Buffer) : String.length (toHex bs) = (2 * length bs)%nat.
Proof.
  induction bs as [|b bs IH]; [done|]. cbn [toHex]. rewrite length_byteHex, IH. simpl. lia.
Qed.

Lemma allChars_toHex (bs : Buffer) : allChars isHexChar (toHex bs) = true.
Proof.
  induction bs as [|b bs IH]; [done|]. cbn [toHex]. by rewrite allChars_byteHex.
Qed.

Lemma zeros_add (a b : nat) : zeros (a + b) = zeros a +:+ zeros b.
Proof. induction a as [|a IH]; [done|]. simpl. by rewrite IH. Qed.

Lemma zeros_snoc (n : nat) (s : string) : zeros n +:+ "0" +:+ s = zeros (S n) +:+ s.
Proof.
  induction n as [|n IH]; [done|].
  change (zeros (S n)) with ("0" +:+ zeros n) at 1.
  rewrite append_assoc, IH. done.
Qed.

Lemma toHex_zero_bytes (k : nat) (bs : Buffer) :
  toHex (repeat Byte.x00 k ++ bs) = zeros (2 * k) +:+ toHex bs.
Proof.
  induction k as [|k IH]; [done|].
  replace (2 * S k)%nat with (S (S (2 * k))) by lia.
  cbn [repeat app toHex zeros]. rewrite IH. done.
Qed.

(** *** padWithZeroes *)

Lemma padWithZeroes_loop_spec (fuel : nat) (myString : string) (len : nat) :
  (len - String.length myString ≤ fuel)%nat →
  padWithZeroes_loop fuel myString len
  = Some (zeros (len - String.length myString) +:+ myString).
Proof.
  revert myString. induction fuel as [|fuel IH]; intros myString Hfuel; simpl.
  - destruct (String.length myString <? len)%nat eqn:E.
    + apply Nat.ltb_lt in E. lia.
    + apply Nat.ltb_ge in E. by replace (len - String.length myString)%nat with O by lia.
  - destruct (String.length myString <? len)%nat eqn:E.
    + apply Nat.ltb_lt in E. rewrite IH.
      2:{ rewrite length_append. simpl. lia. }
      rewrite length_append. simpl String.length.
      replace (len - String.length myString)%nat
        with (S (len - (1 + String.length myString))) by lia.
      by rewrite zeros_snoc.
    + apply Nat.ltb_ge in E. by replace (len - String.length myString)%nat with O by lia.
Qed.

Lemma padWithZeroes_spec (number : string) (len : nat) :
  padWithZeroes number len = zeros (len - String.length number) +:+ number.
Proof.
  unfold padWithZeroes. rewrite append_nil_l.
  rewrite padWithZeroes_loop_spec by lia. done.
Qed.

(** *** Big-endian numbers *)

Lemma BN_snoc (bs : Buffer) (b : Byte.byte) :
  ethUtil.BN (bs ++ [b]) = ethUtil.BN bs * 256 + byteVal b.
Proof. unfold ethUtil.BN. by rewrite foldl_app. Qed.

Lemma BN_bound (bs : Buffer) : 0 ≤ ethUtil.BN bs < 256 ^ Z.of_nat (length bs).
Proof.
  induction bs as [|b bs IH] using rev_ind; [done|].
  rewrite BN_snoc, length_app. simpl length.
  replace (Z.of_nat (length bs + 1)) with (Z.succ (Z.of_nat (length bs))) by lia.
  rewrite Z.pow_succ_r by lia. pose proof (byteVal_range b). lia.
Qed.

Lemma stripZeros_split (bs : Buffer) :
  ∃ k, bs = repeat Byte.x00 k ++ stripZeros bs ∧
       (k + length (stripZeros bs) = length bs)%nat.
Proof.
  induction bs as [|b bs (k & IH & Hk)]; [by exists O|].
  destruct (decide (b = Byte.x00)) as [->|Hb].
  - exists (S k). simpl. split; [by rewrite <- IH|lia].
  - exists O. by destruct b.
Qed.

Lemma stripZeros_app (bs l : Buffer) :
  stripZeros (bs ++ l) =
  match stripZeros bs with [] => stripZeros l | _ => stripZeros bs ++ l end.
Proof.
  induction bs as [|b bs IH]; [done|].
  destruct (decide (b = Byte.x00)) as [->|Hb]; [done|]. by destruct b.
Qed.

Lemma byteVal_zero (b : Byte.byte) : byteVal b = 0 → b = Byte.x00.
Proof. intros H. rewrite <- (byteOf_byteVal b), H. done. Qed.

Lemma BN_zero (bs : Buffer) : ethUtil.BN bs = 0 → stripZeros bs = [].
Proof.
  induction bs as [|b bs IH] using rev_ind; [done|].
  rewrite BN_snoc. intros H.
  pose proof (BN_bound bs) as Hb. pose proof (byteVal_range b) as Hr.
  assert (ethUtil.BN bs = 0) as Hz by lia.
  assert (byteVal b = 0) as ->%byteVal_zero by lia.
  rewrite stripZeros_app, (IH Hz). done.
Qed.

Lemma toArray_loop_BN (bs : Buffer) :
  ∀ fuel acc, (length bs ≤ fuel)%nat →
    ethUtil.toArray_loop fuel (ethUtil.BN bs) acc = stripZeros bs ++ acc.
Proof.
  induction bs as [|b bs IH] using rev_ind; intros fuel acc Hfuel.
  { by destruct fuel. }
  rewrite length_app in Hfuel. simpl in Hfuel.
  destruct fuel as [|fuel]; [lia|]. cbn [ethUtil.toArray_loop].
  pose proof (BN_bound bs). pose proof (byteVal_range b).
  destruct (_ =? 0)%Z eqn:E.
  - apply Z.eqb_eq in E. by rewrite (BN_zero _ E).
  - apply Z.eqb_neq in E. rewrite BN_snoc in *.
    replace ((ethUtil.BN bs * 256 + byteVal b) / 256) with (ethUtil.BN bs)
      by (apply Z.div_unique with (byteVal b); lia).
    replace ((ethUtil.BN bs * 256 + byteVal b) mod 256) with (byteVal b)
      by (apply Z.mod_unique with (ethUtil.BN bs); lia).
    rewrite byteOf_byteVal, IH by lia. rewrite stripZeros_app.
    destruct (stripZeros bs) as [|x xs] eqn:Es.
    + destruct (decide (b = Byte.x00)) as [->|Hb]; [|by destruct b].
      exfalso. apply E.
      assert (ethUtil.BN bs = 0) as ->; [|done].
      destruct (stripZeros_split bs) as (k & Hk & _). rewrite Es, app_nil_r in Hk.
      rewrite Hk. clear. induction k as [|k IHk]; [done|].
      replace (S k) with (k + 1)%nat by lia. rewrite repeat_app. simpl.
      by rewrite BN_snoc, IHk.
    + by rewrite <- app_assoc.
Qed.

Lemma toArray_loop_fuel (f : nat) :
  ∀ n acc f', 0 ≤ n < 256 ^ Z.of_nat f → (f ≤ f')%nat →
    ethUtil.toArray_loop f' n acc = ethUtil.toArray_loop f n acc.
Proof.
  induction f as [|f IH]; intros n acc f' Hn Hle.
  - assert (n = 0) as -> by (simpl in Hn; lia). by destruct f'.
  - destruct f' as [|f']; [lia|]. cbn [ethUtil.toArray_loop].
    destruct (n =? 0)%Z eqn:E; [done|]. apply IH; [|lia].
    replace (Z.of_nat (S f)) with (Z.succ (Z.of_nat f)) in Hn by lia.
    rewrite Z.pow_succ_r in Hn by lia.
    split; [apply Z.div_pos; lia|]. apply Z.div_lt_upper_bound; lia.
Qed.

Lemma toArray_BN (bs : Buffer) :
  ethUtil.toArray (ethUtil.BN bs) =
  if (ethUtil.BN bs =? 0)%Z then [Byte.x00] else stripZeros bs.
Proof.
  unfold ethUtil.toArray. destruct (_ =? 0)%Z eqn:E; [done|]. apply Z.eqb_neq in E.
  pose proof (BN_bound bs) as Hb. set (n := ethUtil.BN bs) in *.
  set (f := S (Z.to_nat (Z.log2 n))).
  assert (0 ≤ n < 256 ^ Z.of_nat f) as Hf.
  { split; [lia|]. destruct (Z.log2_spec n) as [_ Hlt]; [lia|].
    eapply Z.lt_le_trans; [exact Hlt|].
    unfold f. rewrite Nat2Z.inj_succ, Z2Nat.id by apply Z.log2_nonneg.
    apply Z.pow_le_mono_l. pose proof (Z.log2_nonneg n). lia. }
  rewrite <- (toArray_loop_fuel f n [] (max f (length bs))) by (done || lia).
  unfold n. rewrite toArray_loop_BN by lia. by rewrite app_nil_r.
Qed.

(** A 32-byte value survives the signed/unsigned detour and the padding. *)
Lemma toUnsigned_fromSigned (bs : Buffer) :
  length bs = 32%nat →
  ethUtil.toUnsigned (ethUtil.fromSigned bs) = ethUtil.toArray (ethUtil.BN bs).
Proof.
  intros Hlen. pose proof (BN_bound bs) as Hb. rewrite Hlen in Hb.
  change (256 ^ Z.of_nat 32) with (2 ^ 256) in Hb.
  unfold ethUtil.toUnsigned, ethUtil.fromSigned. f_equal.
  destruct (Z.testbit _ 255).
  - destruct (_ <? 0)%Z eqn:E; [lia|]. apply Z.ltb_ge in E. lia.
  - destruct (_ <? 0)%Z eqn:E; [|done]. apply Z.ltb_lt in E. lia.
Qed.

Lemma padded_hex (bs : Buffer) :
  length bs = 32%nat →
  padWithZeroes (toHex (ethUtil.toUnsigned (ethUtil.fromSigned bs))) 64 = toHex bs.
Proof.
  intros Hlen. rewrite toUnsigned_fromSigned, toArray_BN, padWithZeroes_spec by done.
  destruct (stripZeros_split bs) as (k & Hk & Hlk).
  destruct (_ =? 0)%Z eqn:E.
  - apply Z.eqb_eq, BN_zero in E. rewrite E, app_nil_r in Hk. rewrite E in Hlk.
    simpl in Hlk. assert (k = 32%nat) as -> by lia. by rewrite Hk.
  - transitivity (toHex (repeat Byte.x00 k ++ stripZeros bs)); [|by rewrite <- Hk].
    rewrite toHex_zero_bytes, length_toHex.
    by replace (64 - 2 * length (stripZeros bs))%nat with (2 * k)%nat by lia.
Qed.

(** *** Serialising and parsing a signature *)

Lemma substring_all (s : string) : String.substring 0 (String.length s) s = s.
Proof. induction s as [|c s IH]; [done|]. simpl. by rewrite IH. Qed.

Lemma stripHexPrefix_0x (digits : string) :
  ethUtil.stripHexPrefix ("0x" +:+ digits) = digits.
Proof.
  unfold ethUtil.stripHexPrefix.
  change (ethUtil.isHexPrefixed ("0x" +:+ digits)) with true. cbv iota.
  change (String.length ("0x" +:+ digits)) with (S (S (String.length digits))).
  change (S (S (String.length digits)) - 2)%nat with (String.length digits - 0)%nat.
  rewrite Nat.sub_0_r. apply substring_all.
Qed.

Section roundtrip.
Context (arrayBytes : list val -> Buffer).

Lemma concatSig_hex (v : Z) (r s : Buffer) :
  v = 27 ∨ v = 28 → length r = 32%nat → length s = 32%nat →
  concatSig arrayBytes (VNum v) r s = Return ("0x" +:+ toHex (r ++ s ++ [byteOf v])).
Proof.
  intros Hv Hr Hs. unfold concatSig.
  rewrite !padded_hex by done.
  assert (ethUtil.bufferToInt arrayBytes (VNum v) = Return v) as ->
    by (destruct Hv as [-> | ->]; reflexivity).
  cbn [mbind outcome_bind]. f_equal.
  assert (ethUtil.stripHexPrefix (ethUtil.intToHex v) = toHex [byteOf v]) as ->
    by (destruct Hv as [-> | ->]; reflexivity).
  rewrite <- !toHex_app. unfold ethUtil.addHexPrefix.
  destruct r as [|b r]; [done|]. cbn [app toHex].
  by rewrite isHexPrefixed_byteHex.
Qed.

Lemma toBuffer_hex (bs : Buffer) :
  ethUtil.toBuffer arrayBytes (VStr ("0x" +:+ toHex bs)) = Return bs.
Proof.
  cbn [ethUtil.toBuffer].
  assert (ethUtil.isHexString ("0x" +:+ toHex bs) = true) as ->
    by apply allChars_toHex.
  rewrite stripHexPrefix_0x. unfold ethUtil.padToEven.
  rewrite length_toHex.
  replace (Nat.odd (2 * length bs)) with false.
  - by rewrite fromHex_toHex.
  - symmetry. rewrite <- Nat.negb_even, Nat.even_mul. done.
Qed.

Lemma fromRpcSig_hex (v : Z) (r s : Buffer) :
  27 ≤ v < 256 → length r = 32%nat → length s = 32%nat →
  fromRpcSig arrayBytes (VStr ("0x" +:+ toHex (r ++ s ++ [byteOf v])))
  = Return {| ethUtil.sig_v := v; ethUtil.sig_r := r; ethUtil.sig_s := s |}.
Proof.
  intros Hv Hr Hs. unfold fromRpcSig. rewrite toBuffer_hex.
  cbn [mbind outcome_bind]. unfold ethUtil.fromRpcSig. cbn [ethUtil.toBuffer mbind outcome_bind].
  rewrite !length_app, Hr, Hs. cbn [length Nat.add Nat.eqb negb].
  rewrite lookup_app_r by lia. rewrite lookup_app_r by lia.
  rewrite Hr, Hs. cbn [Nat.sub lookup list_lookup fmap option_fmap option_map default].
  assert (byteVal (byteOf v) = v) as ->.
  { unfold byteOf, byteVal. rewrite Z.mod_small by lia.
    destruct (Byte.of_N (Z.to_N v)) as [b|] eqn:E.
    - apply Byte.to_of_N in E. simpl. lia.
    - apply Byte.of_N_None_iff in E. lia. }
  unfold id. destruct (v <? 27)%Z eqn:E; [apply Z.ltb_lt in E; lia|].
  f_equal. f_equal.
  - by rewrite take_app_length' by done.
  - rewrite drop_app_length' by done. by rewrite take_app_length' by done.
Qed.

End roundtrip.

(** ** The type graph: what the walk returns, what encodeType writes *)

Lemma ownProp_Some (k : string) (kvs : list (string * val)) :
  is_Some (ownProp k kvs) ↔ k ∈ kvs.*1.
Proof.
  induction kvs as [|[k' v] kvs IH]; cbn [ownProp fmap list_fmap fst].
  - split; [by intros [? ?]|by intros ?%elem_of_nil].
  - destruct (String.eqb_spec k' k) as [->|Hne].
    + split; [by left|eauto].
    + rewrite IH. split; [by right|].
      intros [?|?]%elem_of_cons; [congruence|done].
Qed.

(** The names every plain object inherits. *)
Lemma inherited_names (k : string) :
  is_Some (inherited k) ↔
  k ∈ [ "constructor"; "__defineGetter__"; "__defineSetter__"; "hasOwnProperty";
        "__lookupGetter__"; "__lookupSetter__"; "isPrototypeOf"; "propertyIsEnumerable";
        "toString"; "valueOf"; "__proto__"; "toLocaleString" ].
Proof. unfold inherited. by rewrite ownProp_Some. Qed.

Lemma readType_cases (types : Schema) (k : TypeKey) :
  match readType types k with
  | Own fields => types !! keyString k = Some fields
  | Inherited => types !! keyString k = None ∧ is_Some (inherited (keyString k))
  | Missing => types !! keyString k = None ∧ inherited (keyString k) = None
  end.
Proof.
  unfold readType. destruct (types !! keyString k); [done|].
  destruct (inherited (keyString k)); eauto.
Qed.

Lemma stumbles_spec (types : Schema) (x : TypeKey) :
  stumbles types x ↔
  ∃ fields field,
    types !! keyString x = Some fields ∧ field ∈ fields ∧
    types !! f_type field = None ∧
    f_type field ∈
      [ "constructor"; "__defineGetter__"; "__defineSetter__"; "hasOwnProperty";
        "__lookupGetter__"; "__lookupSetter__"; "isPrototypeOf"; "propertyIsEnumerable";
        "toString"; "valueOf"; "__proto__"; "toLocaleString" ].
Proof.
  unfold stumbles. split; intros (fields & field & Hf & Hfield & H); exists fields, field;
    (split_and!; [done|done|..]).
  - pose proof (readType_cases types (KName (f_type field))) as Hc. rewrite H in Hc.
    by destruct Hc.
  - pose proof (readType_cases types (KName (f_type field))) as Hc. rewrite H in Hc.
    destruct Hc as [_ Hi]. by apply inherited_names in Hi.
  - destruct H as [Hno Hin]. apply inherited_names in Hin as [v Hv].
    rewrite (readType_None types (KName (f_type field))) by done. cbn [keyString].
    by rewrite Hv.
Qed.

(** The walk from [k] comes to a name the schema only inherits, spelled
    out. *)
Lemma meetsInherited_spec (types : Schema) (k : TypeKey) :
  meetsInherited types k ↔
  (types !! keyString k = None ∧
   keyString k ∈
     [ "constructor"; "__defineGetter__"; "__defineSetter__"; "hasOwnProperty";
       "__lookupGetter__"; "__lookupSetter__"; "isPrototypeOf"; "propertyIsEnumerable";
       "toString"; "valueOf"; "__proto__"; "toLocaleString" ]) ∨
  (∃ x fields field,
     rtc (refersTo types) k x ∧
     types !! keyString x = Some fields ∧ field ∈ fields ∧
     types !! f_type field = None ∧
     f_type field ∈
       [ "constructor"; "__defineGetter__"; "__defineSetter__"; "hasOwnProperty";
         "__lookupGetter__"; "__lookupSetter__"; "isPrototypeOf"; "propertyIsEnumerable";
         "toString"; "valueOf"; "__proto__"; "toLocaleString" ]).
Proof.
  unfold meetsInherited. split.
  - intros [Hinh|(x & Hrtc & Hst)].
    + left. pose proof (readType_cases types k) as Hc. rewrite Hinh in Hc.
      destruct Hc as [Hno Hi]. split; [done|]. by apply inherited_names.
    + right. apply stumbles_spec in Hst as (fields & field & ?). by exists x, fields, field.
  - intros [[Hno Hin]|(x & fields & field & Hrtc & Hst)].
    + left. apply inherited_names in Hin as [v Hv]. rewrite readType_None by done.
      by rewrite Hv.
    + right. exists x. split; [done|]. apply stumbles_spec. by exists fields, field.
Qed.




(** ** The signature codec: the round trip *)

(** C4: parsing a serialised signature gives back the triple it was built
    from, for v in {27, 28} and 32-byte r and s. *)
Theorem fromRpcSig_concatSig (arrayBytes : list val -> Buffer) (v : Z) (r s : Buffer) :
  v = 27 ∨ v = 28 → length r = 32%nat → length s = 32%nat →
  (sig ← concatSig arrayBytes (VNum v) r s; fromRpcSig arrayBytes (VStr sig))
  = Return {| ethUtil.sig_v := v; ethUtil.sig_r := r; ethUtil.sig_s := s |}.
Proof.
  intros Hv Hr Hs. rewrite concatSig_hex by done. cbn [mbind outcome_bind].
  apply fromRpcSig_hex; [|done|done]. destruct Hv as [-> | ->]; lia.
Qed.

Lemma fromRpcSig_concatSig_witness :
  (sig ← concatSig (λ _, []) (VNum 27) (repeat Byte.xff 32) (repeat Byte.x00 31 ++ [Byte.x07]);
   fromRpcSig (λ _, []) (VStr sig))
  = Return {| ethUtil.sig_v := 27; ethUtil.sig_r := repeat Byte.xff 32;
              ethUtil.sig_s := repeat Byte.x00 31 ++ [Byte.x07] |}.
Proof.
  apply (fromRpcSig_concatSig (λ _, []) 27 (repeat Byte.xff 32) (repeat Byte.x00 31 ++ [Byte.x07])).
  - left. reflexivity.
  - reflexivity.
  - reflexivity.
Defined.

(** ** normalize *)

Lemma toLowerChar_idem (c : ascii) : toLowerChar (toLowerChar c) = toLowerChar c.
Proof. destruct c as [[] [] [] [] [] [] [] []]; reflexivity. Qed.

Lemma toLowerCase_idem (s : string) : toLowerCase (toLowerCase s) = toLowerCase s.
Proof. induction s as [|c s IH]; [done|]. simpl. by rewrite toLowerChar_idem, IH. Qed.

Lemma toLowerCase_byteHex (b : Byte.byte) (rest : string) :
  toLowerCase (byteHex b +:+ rest) = byteHex b +:+ toLowerCase rest.
Proof. destruct b; reflexivity. Qed.

Lemma toLowerCase_toHex (bs : Buffer) : toLowerCase (toHex bs) = toHex bs.
Proof.
  induction bs as [|b bs IH]; [done|]. cbn [toHex]. by rewrite toLowerCase_byteHex, IH.
Qed.

Lemma addHexPrefix_prefixed (s : string) :
  ethUtil.isHexPrefixed (ethUtil.addHexPrefix s) = true.
Proof. unfold ethUtil.addHexPrefix. by destruct (ethUtil.isHexPrefixed s) eqn:E. Qed.

Lemma addHexPrefix_lower (s : string) :
  toLowerCase s = s → toLowerCase (ethUtil.addHexPrefix s) = ethUtil.addHexPrefix s.
Proof.
  intros Hs. unfold ethUtil.addHexPrefix. destruct (ethUtil.isHexPrefixed s); [done|].
  change (toLowerCase ("0x" +:+ s)) with ("0x" +:+ toLowerCase s). by rewrite Hs.
Qed.

Lemma falsyVal_falsy (f : falsy) : truthy (falsyVal f) = false.
Proof. by destruct f. Qed.

Lemma falsy_cases (v : val) : truthy v = false → ∃ f, v = falsyVal f.
Proof.
  destruct v as [| |[]|z| |s| | | |]; simpl; intros H; try done.
  - by exists FUndefined.
  - by exists FNull.
  - by exists FFalse.
  - exists FZero. apply negb_false_iff, Z.eqb_eq in H. by subst.
  - by exists FNaN.
  - exists FEmpty. apply negb_false_iff, String.eqb_eq in H. by subst.
Qed.




(** ** Calls that come back *)

Lemma halts_Return {A} (a : A) : halts (Return a).
Proof. done. Qed.

Lemma halts_Throw {A} (e : exn) : halts (@Throw A e).
Proof. done. Qed.

Lemma halts_bind {A B} (m : outcome A) (k : A -> outcome B) :
  halts m → (∀ a, m = Return a → halts (k a)) → halts (m ≫= k).
Proof. destruct m as [a|e|]; intros Hm Hk; [by apply Hk|done|done]. Qed.

Lemma halts_call {A} (r : ext A) : halts (call r).
Proof. by destruct r. Qed.

Lemma halts_get hostGet (o : val) (k : string) : halts (get hostGet o k).
Proof. destruct o; try done; apply halts_call. Qed.

Lemma halts_toBuffer arrayBytes (v : val) : halts (ethUtil.toBuffer arrayBytes v).
Proof. destruct v; try done. simpl. by destruct (ethUtil.isHexString s). Qed.

Lemma halts_foldM {A S} (body : A -> S -> outcome S) (xs : list A) (st : S) :
  (∀ x st, x ∈ xs → halts (body x st)) → halts (foldM body xs st).
Proof.
  revert st. induction xs as [|x xs IH]; intros st Hbody; simpl; [done|].
  apply halts_bind; [apply Hbody; by left|].
  intros st' _. apply IH. intros y st'' Hy. apply Hbody. by right.
Qed.

Lemma halts_mapM {A B} (f : A -> outcome B) (l : list A) :
  (∀ x, halts (f x)) → halts (mapM f l).
Proof.
  intros Hf. induction l as [|x l IH]; simpl; [done|].
  apply halts_bind; [done|]. intros y _. apply halts_bind; [done|]. done.
Qed.

Lemma mapM_length {A B} (f : A -> outcome B) (l : list A) (ys : list B) :
  mapM f l = Return ys → length ys = length l.
Proof.
  revert ys. induction l as [|x l IH]; intros ys; cbn [mapM].
  - by intros [= <-].
  - destruct (f x) as [y| |]; cbn [mbind outcome_bind]; [|done|done].
    destruct (mapM f l) as [ys'| |]; cbn [mbind outcome_bind]; [|done|done].
    intros [= <-]. simpl. f_equal. by apply IH.
Qed.

Lemma mapM_Return {A B} (f : A -> outcome B) (g : A -> B) (l : list A) :
  (∀ x, x ∈ l → f x = Return (g x)) → mapM f l = Return (g <$> l).
Proof.
  induction l as [|x l IH]; intros Hf; [done|].
  cbn [mapM]. rewrite Hf by (by left). cbn [mbind outcome_bind].
  rewrite IH by (intros y Hy; apply Hf; by right). done.
Qed.

Lemma foldM_ext {A S} (body1 body2 : A -> S -> outcome S) (xs : list A) (st : S) :
  (∀ x st, x ∈ xs → body1 x st = body2 x st) → foldM body1 xs st = foldM body2 xs st.
Proof.
  revert st. induction xs as [|x xs IH]; intros st Hbody; simpl; [done|].
  rewrite Hbody by (by left). destruct (body2 x st) as [st'| |]; simpl; [|done|done].
  apply IH. intros y st'' Hy. apply Hbody. by right.
Qed.

Lemma foldM_app {A S} (body : A -> S -> outcome S) (xs ys : list A) (st : S) :
  foldM body (xs ++ ys) st = st' ← foldM body xs st; foldM body ys st'.
Proof.
  revert st. induction xs as [|x xs IH]; intros st; simpl; [done|].
  destruct (body x st) as [st'| |]; simpl; [apply IH|done|done].
Qed.

(** ** Reading an object *)

Lemma ownProp_holds (d : list (string * val)) (k : string) (v : val) :
  ownProp k d = Some v ↔ holds d k v.
Proof.
  induction d as [|[k' v'] d IH]; cbn [ownProp].
  - split; [done|]. intros (before & after & Hd & _). by destruct before.
  - destruct (String.eqb_spec k' k) as [->|Hne].
    + split.
      * intros [= ->]. exists [], d. split; [done|apply not_elem_of_nil].
      * intros (before & after & Hd & Hk). destruct before as [|[k0 v0] before].
        { by injection Hd as ->. }
        injection Hd as -> -> _. exfalso. apply Hk. by left.
    + rewrite IH. split.
      * intros (before & after & -> & Hk). exists ((k', v') :: before), after.
        split; [done|]. cbn. intros [?|?]%elem_of_cons; [congruence|done].
      * intros (before & after & Hd & Hk). destruct before as [|[k0 v0] before].
        { injection Hd as -> _ _. done. }
        injection Hd as -> -> ->. exists before, after. split; [done|].
        intros Hin. apply Hk. cbn. by right.
Qed.

Lemma ownProp_None (d : list (string * val)) (k : string) :
  ownProp k d = None ↔ k ∉ d.*1.
Proof.
  rewrite <- ownProp_Some. destruct (ownProp k d) as [v|].
  - split; [done|]. intros H. exfalso. apply H. eauto.
  - split; [|done]. intros _ [? ?]. done.
Qed.

(** What an object inherits is never undefined. *)
Lemma inherited_defined (k : string) (v : val) : inherited k = Some v → isUndefined v = false.
Proof.
  unfold inherited. intros H%ownProp_holds. destruct H as (before & after & Hd & _).
  assert ((k, v) ∈ objectPrototype) as Hin.
  { rewrite Hd. apply elem_of_app. right. by left. }
  clear Hd. unfold objectPrototype in Hin.
  repeat (apply elem_of_cons in Hin as [[= -> ->]|Hin]; [done|]).
  by apply elem_of_nil in Hin.
Qed.

(** ** The struct encoder *)

Section typed_data_properties.
Context (arrayBytes : list val -> Buffer).
Context (hostGet : val -> string -> ext val).
Context (frames : nat).
Context (keccak256 : Buffer -> Buffer).
Context (rawEncode : list string -> list val -> ext Buffer).
Context (solidityPack : list string -> list val -> ext Buffer).
Context (ecsign : Buffer -> val -> ext ethUtil.SignatureParams).
Context (hashPersonalMessage : Buffer -> Buffer).

Local Abbreviation get' := (get hostGet).
Local Abbreviation present' := (present hostGet).
Local Abbreviation sha3' := (sha3 arrayBytes keccak256).
Local Abbreviation hashType' := (hashType arrayBytes keccak256).
Local Abbreviation encodeValue' := (encodeValue arrayBytes keccak256).
Local Abbreviation encodeField' := (encodeField arrayBytes hostGet keccak256).
Local Abbreviation encodeData_fuel' := (encodeData_fuel arrayBytes hostGet keccak256 rawEncode).
Local Abbreviation encodeData' := (encodeData arrayBytes hostGet frames keccak256 rawEncode).
Local Abbreviation encodeNested' := (encodeNested arrayBytes hostGet frames keccak256 rawEncode).
Local Abbreviation encodeSlot' := (encodeSlot arrayBytes hostGet frames keccak256 rawEncode).
Local Abbreviation hashStruct' := (hashStruct arrayBytes hostGet frames keccak256 rawEncode).
Local Abbreviation sign' := (sign arrayBytes hostGet frames keccak256 rawEncode).
Local Abbreviation signHash_spec' :=
  (signHash_spec arrayBytes hostGet frames keccak256 rawEncode).
Local Abbreviation soliditySHA3' := (soliditySHA3 keccak256 solidityPack).
Local Abbreviation typedSignatureHashBuffer' :=
  (typedSignatureHashBuffer arrayBytes keccak256 solidityPack).

Lemma halts_sha3 (a : val) : halts (sha3' a).
Proof. apply halts_bind; [apply halts_toBuffer|done]. Qed.

Lemma sha3_buffer (bs : Buffer) : sha3' (VBuffer bs) = Return (keccak256 bs).
Proof. done. Qed.

Lemma sha3_string (text : string) : ∃ hash, sha3' (VStr text) = Return hash.
Proof. unfold sha3. simpl. destruct (ethUtil.isHexString text); simpl; eauto. Qed.

Lemma halts_hashType (primaryType : TypeKey) (types : Schema) :
  halts (hashType' primaryType types).
Proof.
  apply halts_bind; [apply halts_encodeType|]. intros ? _. apply halts_sha3.
Qed.

(** The hash of the type of a struct of the schema: a hash, or the
    TypeError of the walk. *)
Lemma hashType_entry (type : TypeKey) (types : Schema) :
  is_Some (types !! keyString type) →
  (∃ hash, hashType' type types = Return hash) ∨ hashType' type types = Throw TypeError.
Proof.
  intros [fields Hf]. unfold hashType.
  destruct (findTypeDependencies type types) as [found|e|] eqn:E.
  - rewrite (encodeType_found _ _ _ E), Hf. cbn [mbind outcome_bind]. left. apply sha3_string.
  - rewrite (encodeType_throws _ _ _ E). right.
    pose proof (findTypeDependencies_outcome types type) as Hout. rewrite E in Hout.
    by destruct Hout as [-> _].
  - by apply halts_findTypeDependencies in E.
Qed.

Lemma encodeType_missing (type : TypeKey) (types : Schema) :
  readType types type = Missing →
  encodeType type types = Throw (NoTypeDefinition (keyString type)).
Proof.
  intros Hm. pose proof (readType_cases types type) as Hc. rewrite Hm in Hc.
  destruct Hc as [Hno Hinh].
  assert (findTypeDependencies type types = Return []) as Hfound.
  { unfold findTypeDependencies. rewrite walk_step. cbn. by rewrite Hm. }
  by rewrite (encodeType_found _ _ _ Hfound), Hno.
Qed.

Lemma encodeType_inherited (type : TypeKey) (types : Schema) :
  readType types type = Inherited → encodeType type types = Throw TypeError.
Proof.
  intros Hi. apply encodeType_throws.
  unfold findTypeDependencies. rewrite walk_step. cbn. by rewrite Hi.
Qed.

Lemma hashType_missing (type : TypeKey) (types : Schema) :
  readType types type = Missing →
  hashType' type types = Throw (NoTypeDefinition (keyString type)).
Proof. intros Hm. unfold hashType. by rewrite encodeType_missing. Qed.

Lemma hashType_inherited (type : TypeKey) (types : Schema) :
  readType types type = Inherited → hashType' type types = Throw TypeError.
Proof. intros Hi. unfold hashType. by rewrite encodeType_inherited. Qed.

Lemma halts_encodeValue (self : TypeKey -> val -> outcome Buffer)
    (types : Schema) (field : FieldDef) (value : val) :
  (∀ type, halts (self type value)) → halts (encodeValue' self types field value).
Proof.
  intros Hself. unfold encodeValue.
  destruct (_ || _).
  { apply halts_bind; [apply halts_sha3|done]. }
  destruct (isDefined _).
  { apply halts_bind; [apply Hself|]. intros ? _.
    apply halts_bind; [apply halts_sha3|done]. }
  by destruct (_ =? _)%Z.
Qed.

Lemma halts_encodeField (self : TypeKey -> val -> outcome Buffer)
    (types : Schema) (data : val) (field : FieldDef) (st : list string * list val) :
  (∀ type value, halts (self type value)) →
  halts (encodeField' self types data field st).
Proof.
  intros Hself. unfold encodeField. destruct st as [encodedTypes encodedValues].
  apply halts_bind; [apply halts_get|]. intros value Hget.
  destruct (isUndefined value) eqn:Eu; [done|].
  apply halts_bind; [apply halts_encodeValue; intros type; by apply Hself|].
  by intros [? ?] _.
Qed.

(** A call of [encodeData] returns or throws, whatever the stack has room
    for. *)
Lemma halts_encodeData_fuel (types : Schema) (fuel : nat) :
  ∀ primaryType data, halts (encodeData_fuel' fuel primaryType data types).
Proof.
  induction fuel as [|fuel IH]; intros primaryType data; [done|].
  cbn [encodeData_fuel]. apply halts_bind; [apply halts_hashType|]. intros hash _.
  destruct (readType types primaryType) as [fields| |]; [|done|done].
  apply halts_bind; [|intros [? ?] _; apply halts_call].
  apply halts_foldM. intros field st _. apply halts_encodeField.
  intros type value. apply IH.
Qed.

Lemma halts_encodeData (primaryType : TypeKey) (data : val) (types : Schema) :
  halts (encodeData' primaryType data types).
Proof. apply halts_encodeData_fuel. Qed.

Lemma halts_hashStruct (primaryType : TypeKey) (data : val) (types : Schema) :
  halts (hashStruct' primaryType data types).
Proof.
  apply halts_bind; [apply halts_encodeData|]. intros ? _. apply halts_sha3.
Qed.

(** The call from outside, one step unfolded. *)
Lemma encodeData_unfold (primaryType : TypeKey) (data : val) (types : Schema) :
  encodeData' primaryType data types =
  hash ← hashType' primaryType types;
  match readType types primaryType with
  | Own fields =>
      '(encodedTypes, encodedValues) ←
        foldM (encodeField' (λ type value, encodeNested' type value types) types data)
              fields (["bytes32"], [VBuffer hash]);
      call (rawEncode encodedTypes encodedValues)
  | Inherited | Missing => Throw TypeError
  end.
Proof. reflexivity. Qed.

(** For a struct of the schema. *)
Lemma encodeData_own (primaryType : TypeKey) (fields : list FieldDef) (data : val)
    (types : Schema) :
  types !! keyString primaryType = Some fields →
  encodeData' primaryType data types =
  hash ← hashType' primaryType types;
  '(encodedTypes, encodedValues) ←
    foldM (encodeField' (λ type value, encodeNested' type value types) types data)
          fields (["bytes32"], [VBuffer hash]);
  call (rawEncode encodedTypes encodedValues).
Proof. intros Hf. by rewrite encodeData_unfold, (readType_Own _ _ _ Hf). Qed.

Lemma present_object (kvs : list (string * val)) (field : FieldDef) :
  present' (VObj kvs) field = negb (isUndefined (readProp (f_name field) kvs)).
Proof. done. Qed.

Lemma encodeField_object (self : TypeKey -> val -> outcome Buffer) (types : Schema)
    (kvs : list (string * val)) (field : FieldDef) (ts : list string) (vs : list val) :
  encodeField' self types (VObj kvs) field (ts, vs) =
  if present' (VObj kvs) field
  then '(type, value) ← encodeValue' self types field (readProp (f_name field) kvs);
       Return (ts ++ [type], vs ++ [value])
  else Return (ts, vs).
Proof.
  unfold encodeField, present. cbn [get mbind outcome_bind].
  by destruct (isUndefined _).
Qed.

Lemma foldM_encodeField_present (self : TypeKey -> val -> outcome Buffer) (types : Schema)
    (kvs : list (string * val)) (fields : list FieldDef) (ts : list string) (vs : list val) :
  foldM (encodeField' self types (VObj kvs)) fields (ts, vs) =
  slots ← mapM (λ field, value ← get' (VObj kvs) (f_name field);
                         encodeValue' self types field value)
               (filter (λ field, present' (VObj kvs) field = true) fields);
  Return (ts ++ slots.*1, vs ++ slots.*2).
Proof.
  revert ts vs. induction fields as [|field fields IH]; intros ts vs.
  { cbn. by rewrite !app_nil_r. }
  cbn [foldM]. rewrite encodeField_object, filter_cons.
  case_decide as Hp.
  - rewrite Hp. cbn [mapM get mbind outcome_bind].
    destruct (encodeValue' self types field _) as [[type value]| |]; cbn [mbind outcome_bind];
      [|done|done].
    rewrite IH.
    destruct (mapM _ _) as [slots| |]; cbn [mbind outcome_bind]; [|done|done].
    cbn [fmap list_fmap fst snd]. by rewrite <- !app_assoc.
  - apply not_true_is_false in Hp. rewrite Hp. cbn [mbind outcome_bind]. apply IH.
Qed.

(** Which fields of an object are there. *)
Lemma present_spec (d : list (string * val)) (field : FieldDef) :
  present' (VObj d) field = true ↔
  (∃ value, holds d (f_name field) value ∧ value ≠ VUndefined) ∨
  ((f_name field ∉ d.*1) ∧
   f_name field ∈
     [ "constructor"; "__defineGetter__"; "__defineSetter__"; "hasOwnProperty";
       "__lookupGetter__"; "__lookupSetter__"; "isPrototypeOf"; "propertyIsEnumerable";
       "toString"; "valueOf"; "__proto__"; "toLocaleString" ]).
Proof.
  rewrite present_object. unfold readProp. rewrite <- inherited_names, <- ownProp_None.
  destruct (ownProp (f_name field) d) as [v|] eqn:Hown.
  - rewrite negb_true_iff. split.
    + intros Hv. left. exists v. split; [by apply ownProp_holds|]. by intros ->.
    + intros [(value & Hh%ownProp_holds & Hne)|[? _]]; [|done].
      rewrite Hown in Hh. injection Hh as ->. by destruct value.
  - destruct (inherited (f_name field)) as [v|] eqn:Hinh; simpl.
    + rewrite (inherited_defined _ _ Hinh). split; [eauto|done].
    + split; [done|]. intros [(value & Hh%ownProp_holds & _)|[_ [? ?]]]; congruence.
Qed.


(** *** Array types *)

Lemma lastIndexOf_from_snoc (elem : string) (c : ascii) (i found : Z) :
  lastIndexOf_from i (elem +:+ String c "") c found = i + Z.of_nat (String.length elem).
Proof.
  revert i found. induction elem as [|x elem IH]; intros i found.
  - rewrite append_nil_l. cbn [lastIndexOf_from String.length]. rewrite Ascii.eqb_refl. lia.
  - rewrite append_cons. cbn [lastIndexOf_from String.length]. rewrite IH. lia.
Qed.

Lemma array_type_test (elem : string) :
  (lastIndexOf (elem +:+ "]") "]" =? Z.of_nat (String.length (elem +:+ "]")) - 1)%Z = true.
Proof.
  unfold lastIndexOf. rewrite lastIndexOf_from_snoc, length_append.
  apply Z.eqb_eq. simpl String.length. lia.
Qed.

Lemma lastChar_snoc (elem : string) (c : ascii) : lastChar (elem +:+ String c "") = Some c.
Proof.
  induction elem as [|x elem IH]; [done|]. rewrite append_cons.
  cbn [lastChar]. rewrite IH. by destruct elem.
Qed.

Lemma array_type_not_dynamic (elem : string) :
  String.eqb (elem +:+ "]") "string" || String.eqb (elem +:+ "]") "bytes" = false.
Proof.
  apply orb_false_intro; apply String.eqb_neq; intros H;
    pose proof (lastChar_snoc elem "]") as Hl; rewrite H in Hl; discriminate.
Qed.

(** No member of Object.prototype has a name that ends in "]". *)
Lemma array_type_not_inherited (elem : string) : inherited (elem +:+ "]") = None.
Proof.
  destruct (inherited (elem +:+ "]")) as [v|] eqn:E; [|done]. exfalso.
  assert (is_Some (inherited (elem +:+ "]"))) as Hin%inherited_names by eauto.
  pose proof (lastChar_snoc elem "]") as Hl.
  repeat (apply elem_of_cons in Hin as [Hin|Hin]; [rewrite Hin in Hl; discriminate|]).
  by apply elem_of_nil in Hin.
Qed.

Lemma array_type_missing (types : Schema) (elem : string) :
  types !! (elem +:+ "]") = None → readType types (KName (elem +:+ "]")) = Missing.
Proof.
  intros Hno. rewrite readType_None by done. cbn [keyString].
  by rewrite array_type_not_inherited.
Qed.

Lemma encodeValue_array (self : TypeKey -> val -> outcome Buffer) (types : Schema)
    (field : FieldDef) (value : val) (elem : string) :
  f_type field = elem +:+ "]" → types !! f_type field = None →
  encodeValue' self types field value = Throw ArraysUnimplemented.
Proof.
  intros Hty Hno. unfold encodeValue. rewrite Hty in *.
  by rewrite array_type_missing, array_type_not_dynamic, array_type_test.
Qed.

Lemma encodeField_array (self : TypeKey -> val -> outcome Buffer) (types : Schema)
    (d : val) (field : FieldDef) (st : list string * list val) (value : val) (elem : string) :
  f_type field = elem +:+ "]" → types !! f_type field = None →
  get' d (f_name field) = Return value → isUndefined value = false →
  encodeField' self types d field st = Throw ArraysUnimplemented.
Proof.
  intros Hty Hno Hget Hdef. unfold encodeField. destruct st as [ts vs].
  rewrite Hget. cbn [mbind outcome_bind]. rewrite Hdef.
  by rewrite (encodeValue_array _ _ _ _ elem).
Qed.

(** C6, as the code has it: a struct with a field of an array type (a type
    text that ends with "]" and names no struct of the schema) whose value
    is there is never encoded.  The hash of the type is taken first and
    the fields before it are encoded first; unless one of these throws,
    the error is "Arrays currently unimplemented in encodeData". *)
Theorem encodeData_array_field (T : string) (pre post : list FieldDef) (field : FieldDef)
    (elem : string) (d value : val) (schema : Schema) :
  schema !! T = Some (pre ++ field :: post) →
  f_type field = elem +:+ "]" →
  schema !! f_type field = None →
  get' d (f_name field) = Return value → value ≠ VUndefined →
  (∃ e, encodeData' (KName T) d schema = Throw e) ∧
  encodeData' (KName T) d schema =
    (hash ← hashType' (KName T) schema;
     _ ← foldM (encodeField' (λ type value, encodeNested' type value schema) schema d)
               pre (["bytes32"], [VBuffer hash]);
     Throw ArraysUnimplemented) ∧
  (pre = [] →
   encodeData' (KName T) d schema =
     (_ ← hashType' (KName T) schema; Throw ArraysUnimplemented)) ∧
  ((∃ hash, hashType' (KName T) schema = Return hash) ∨
   hashType' (KName T) schema = Throw TypeError).
Proof.
  intros HT Hty Hno Hget Hdef.
  assert (encodeData' (KName T) d schema =
    (hash ← hashType' (KName T) schema;
     _ ← foldM (encodeField' (λ type value, encodeNested' type value schema) schema d)
               pre (["bytes32"], [VBuffer hash]);
     Throw ArraysUnimplemented)) as Heq.
  { rewrite (encodeData_own (KName T) (pre ++ field :: post)) by done.
    destruct (hashType' (KName T) schema) as [hash| |]; cbn [mbind outcome_bind]; [|done|done].
    rewrite foldM_app.
    destruct (foldM _ pre _) as [[ts vs]| |]; cbn [mbind outcome_bind foldM]; [|done|done].
    rewrite (encodeField_array _ _ _ _ _ _ elem) by (done || by destruct value). done. }
  split_and!; [|done| |apply hashType_entry; cbn; eauto].
  - rewrite Heq. pose proof (halts_hashType (KName T) schema) as Hh.
    destruct (hashType' (KName T) schema) as [hash|e|]; cbn [mbind outcome_bind];
      [|eauto|done].
    pose proof (halts_foldM (encodeField' (λ type value, encodeNested' type value schema)
                                          schema d)
                  pre (["bytes32"], [VBuffer hash])) as Hf.
    destruct (foldM _ pre _) as [st|e|]; cbn [mbind outcome_bind]; eauto.
    exfalso. apply Hf; [|done]. intros x st _. apply halts_encodeField.
    intros. apply halts_encodeData_fuel.
  - intros ->. rewrite Heq. by destruct (hashType' (KName T) schema).
Qed.

(** ** sign *)

Lemma sign_sanitizedData (typedData : TypedData) :
  sign' typedData =
  match s_types (sanitizeData typedData) with
  | None => Throw TypeError
  | Some types =>
      signHash_spec' types (readKey (s_primaryType (sanitizeData typedData)))
                    (readObject (s_domain (sanitizeData typedData)))
                    (readObject (s_message (sanitizeData typedData)))
  end.
Proof.
  unfold sign, signHash_spec. destruct (s_types _) as [types|]; [|done].
  destruct (hashStruct' _ _ types) as [h1| |]; cbn [mbind outcome_bind]; [|done|done].
  destruct (hashStruct' _ _ types) as [h2| |]; cbn [mbind outcome_bind]; [|done|done].
  rewrite sha3_buffer. do 2 f_equal. cbn. by rewrite app_nil_r.
Qed.

Lemma halts_sign (typedData : TypedData) : halts (sign' typedData).
Proof.
  unfold sign. destruct (s_types _) as [types|]; [|done].
  apply halts_bind; [apply halts_hashStruct|]. intros ? _.
  apply halts_bind; [apply halts_hashStruct|]. intros ? _. apply halts_sha3.
Qed.

(** C1, as the code has it: [sign] keeps, of the four recognized
    properties, those whose value is truthy and nothing else, and hashes
    what it kept: Keccak256 of 0x19 0x01, hashStruct("EIP712Domain", domain,
    types) and hashStruct(primaryType, message, types), a property that was
    not kept being undefined. *)
Theorem sign_sanitized (typedData : TypedData) :
  let kept := sanitizeData typedData in
  (s_types kept = match td_types typedData with Value t => Some t | _ => None end ∧
   s_primaryType kept =
     match td_primaryType typedData with
     | Value p => if String.eqb p "" then None else Some p
     | _ => None
     end ∧
   s_domain kept = match td_domain typedData with Value o => Some o | _ => None end ∧
   s_message kept = match td_message typedData with Value o => Some o | _ => None end) ∧
  sign' typedData =
    match s_types kept with
    | None => Throw TypeError
    | Some types =>
        signHash_spec' types (readKey (s_primaryType kept))
                      (readObject (s_domain kept)) (readObject (s_message kept))
    end ∧
  (∀ extra, sign' (withExtra typedData extra) = sign' typedData) ∧
  (∀ types primaryType domain message,
     td_types typedData = Value types → td_primaryType typedData = Value primaryType →
     td_domain typedData = Value domain → td_message typedData = Value message →
     primaryType ≠ "" →
     sign' typedData = signHash_spec' types (KName primaryType) (VObj domain) (VObj message)).
Proof.
  intros kept. split_and!.
  - unfold kept, sanitizeData. cbn. by destruct (td_types typedData).
  - unfold kept, sanitizeData. cbn. destruct (td_primaryType typedData) as [| |p]; try done.
    cbn. unfold nonEmpty. by destruct (String.eqb p "").
  - unfold kept, sanitizeData. cbn. by destruct (td_domain typedData).
  - unfold kept, sanitizeData. cbn. by destruct (td_message typedData).
  - apply sign_sanitizedData.
  - intros extra. by rewrite !sign_sanitizedData.
  - intros types primaryType domain message Ht Hp Hd Hm Hne.
    rewrite sign_sanitizedData. unfold sanitizeData. rewrite Ht, Hp, Hd, Hm. cbn.
    unfold nonEmpty. by apply String.eqb_neq in Hne as ->.
Qed.

(** *** Falsy values *)

Lemma keep_falsy {A} (isTruthy : A -> bool) (p : prop A) :
  holdsFalsy isTruthy p → keep isTruthy p = None.
Proof. destruct p as [| |a]; simpl; try done. by intros ->. Qed.

(** C10: a recognized property whose value is falsy is left out of the
    sanitized object just as one that is not there, and [sign] hashes with
    undefined in its place: the result is that of the message without the
    property. *)
Theorem sanitizeData_drops_falsy (typedData : TypedData) :
  (holdsFalsy isObject (td_types typedData) →
   s_types (sanitizeData typedData) = None ∧
   sanitizeData typedData = sanitizeData (withoutTypes typedData) ∧
   sign' typedData = sign' (withoutTypes typedData) ∧
   sign' typedData = Throw TypeError) ∧
  (holdsFalsy nonEmpty (td_primaryType typedData) →
   s_primaryType (sanitizeData typedData) = None ∧
   sanitizeData typedData = sanitizeData (withoutPrimaryType typedData) ∧
   sign' typedData = sign' (withoutPrimaryType typedData) ∧
   ∀ types, s_types (sanitizeData typedData) = Some types →
     sign' typedData =
       signHash_spec' types KUndefined (readObject (s_domain (sanitizeData typedData)))
                     (readObject (s_message (sanitizeData typedData)))) ∧
  (holdsFalsy isObject (td_domain typedData) →
   s_domain (sanitizeData typedData) = None ∧
   sanitizeData typedData = sanitizeData (withoutDomain typedData) ∧
   sign' typedData = sign' (withoutDomain typedData) ∧
   ∀ types, s_types (sanitizeData typedData) = Some types →
     sign' typedData =
       signHash_spec' types (readKey (s_primaryType (sanitizeData typedData))) VUndefined
                     (readObject (s_message (sanitizeData typedData)))) ∧
  (holdsFalsy isObject (td_message typedData) →
   s_message (sanitizeData typedData) = None ∧
   sanitizeData typedData = sanitizeData (withoutMessage typedData) ∧
   sign' typedData = sign' (withoutMessage typedData) ∧
   ∀ types, s_types (sanitizeData typedData) = Some types →
     sign' typedData =
       signHash_spec' types (readKey (s_primaryType (sanitizeData typedData)))
                     (readObject (s_domain (sanitizeData typedData))) VUndefined).
Proof.
  split_and!; intros Hf; pose proof (keep_falsy _ _ Hf) as Hk.
  - assert (sanitizeData typedData = sanitizeData (withoutTypes typedData)) as Hs
      by (unfold sanitizeData; cbn; by rewrite Hk).
    split_and!; [done|done| |].
    + by rewrite !sign_sanitizedData, Hs.
    + rewrite sign_sanitizedData. unfold sanitizeData. cbn. by rewrite Hk.
  - assert (sanitizeData typedData = sanitizeData (withoutPrimaryType typedData)) as Hs
      by (unfold sanitizeData; cbn; by rewrite Hk).
    split_and!; [done|done| |].
    + by rewrite !sign_sanitizedData, Hs.
    + intros types Ht. rewrite sign_sanitizedData, Ht. unfold sanitizeData. cbn.
      by rewrite Hk.
  - assert (sanitizeData typedData = sanitizeData (withoutDomain typedData)) as Hs
      by (unfold sanitizeData; cbn; by rewrite Hk).
    split_and!; [done|done| |].
    + by rewrite !sign_sanitizedData, Hs.
    + intros types Ht. rewrite sign_sanitizedData, Ht. unfold sanitizeData. cbn.
      by rewrite Hk.
  - assert (sanitizeData typedData = sanitizeData (withoutMessage typedData)) as Hs
      by (unfold sanitizeData; cbn; by rewrite Hk).
    split_and!; [done|done| |].
    + by rewrite !sign_sanitizedData, Hs.
    + intros types Ht. rewrite sign_sanitizedData, Ht. unfold sanitizeData. cbn.
      by rewrite Hk.
Qed.

(** ** The legacy typed-data hash *)

Local Abbreviation entryData' := (entryData arrayBytes).

Lemma toBuffer_throws (v : val) (e : exn) :
  ethUtil.toBuffer arrayBytes v = Throw e → e = InvalidType.
Proof.
  destruct v; simpl; try done; try (by intros [= <-]).
  by destruct (ethUtil.isHexString s).
Qed.

Lemma entryData_throws (x : Entry) (e : exn) : entryData' x = Throw e → e = InvalidType.
Proof.
  unfold entryData. destruct (String.eqb _ _); [|done].
  destruct (ethUtil.toBuffer arrayBytes (e_value x)) as [b|e'|] eqn:E; cbn; try done.
  intros [= <-]. by eapply toBuffer_throws.
Qed.

Lemma halts_entryData (x : Entry) : halts (entryData' x).
Proof.
  unfold entryData. destruct (String.eqb _ _); [|done].
  apply halts_bind; [apply halts_toBuffer|done].
Qed.

Lemma mapM_entryData_throws (typedData : list Entry) (e : exn) :
  mapM entryData' typedData = Throw e → e = InvalidType.
Proof.
  induction typedData as [|x l IH]; cbn [mapM]; [done|].
  destruct (entryData' x) as [y|e'|] eqn:E; cbn [mbind outcome_bind].
  - destruct (mapM entryData' l) as [ys|e'|]; cbn [mbind outcome_bind]; [done| |done].
    intros [= <-]. by apply IH.
  - intros [= <-]. by eapply entryData_throws.
  - done.
Qed.

(** What the first [map] returns: the value of each entry, a value of
    type "bytes" converted to a buffer. *)
Lemma mapM_entryData_Return (typedData : list Entry) (data : list val) :
  mapM entryData' typedData = Return data ↔
  Forall2 (λ e value,
             if String.eqb (e_type e) "bytes"
             then ∃ b, ethUtil.toBuffer arrayBytes (e_value e) = Return b ∧ value = VBuffer b
             else value = e_value e)
          typedData data.
Proof.
  revert data. induction typedData as [|x l IH]; intros data; cbn [mapM].
  - split; [intros [= <-]; constructor|by intros ->%Forall2_nil_inv_l].
  - assert (entryData' x =
            if String.eqb (e_type x) "bytes"
            then b ← ethUtil.toBuffer arrayBytes (e_value x); Return (VBuffer b)
            else Return (e_value x)) as -> by done.
    split.
    + destruct (String.eqb (e_type x) "bytes") eqn:Eb.
      * destruct (ethUtil.toBuffer arrayBytes (e_value x)) as [b| |] eqn:Et;
          [|by intros [=]..].
        cbn [mbind outcome_bind].
        destruct (mapM entryData' l) as [ys| |] eqn:Em; [|by intros [=]..].
        cbn [mbind outcome_bind].
        intros [= <-]. constructor; [rewrite Eb; eauto|by apply IH].
      * cbn [mbind outcome_bind].
        destruct (mapM entryData' l) as [ys| |] eqn:Em; [|by intros [=]..].
        cbn [mbind outcome_bind].
        intros [= <-]. constructor; [by rewrite Eb|by apply IH].
    + intros (value & ys & Hx & Hl & ->)%Forall2_cons_inv_l.
      apply IH in Hl. rewrite Hl.
      destruct (String.eqb (e_type x) "bytes").
      * destruct Hx as (b & -> & ->). done.
      * by subst.
Qed.

Lemma entrySchema_named (error : exn) (e : Entry) :
  hasName e = true → entrySchema error e = Return (schemaText e).
Proof. intros H. unfold entrySchema. by rewrite H. Qed.

Lemma entrySchema_unnamed (error : exn) (e : Entry) :
  hasName e = false → entrySchema error e = Throw error.
Proof. intros H. unfold entrySchema. by rewrite H. Qed.

Lemma mapM_entrySchema_named (error : exn) (typedData : list Entry) :
  (∀ e, e ∈ typedData → hasName e = true) →
  mapM (entrySchema error) typedData = Return (schemaText <$> typedData).
Proof.
  induction typedData as [|x l IH]; intros Hall; cbn [mapM]; [done|].
  rewrite entrySchema_named by (apply Hall; by left). cbn [mbind outcome_bind].
  rewrite IH; [done|]. intros e He. apply Hall. by right.
Qed.

Lemma mapM_entrySchema_unnamed (error : exn) (typedData : list Entry) :
  (∃ e, e ∈ typedData ∧ hasName e = false) →
  mapM (entrySchema error) typedData = Throw error.
Proof.
  induction typedData as [|x l IH]; intros (e & He & Hn).
  { by apply elem_of_nil in He. }
  cbn [mapM]. destruct (hasName x) eqn:Ex.
  - rewrite entrySchema_named by done. cbn [mbind outcome_bind].
    rewrite IH; [done|]. apply elem_of_cons in He as [->|He]; [congruence|eauto].
  - by rewrite entrySchema_unnamed.
Qed.

Lemma halts_soliditySHA3 (ts : list string) (vs : list val) : halts (soliditySHA3' ts vs).
Proof. apply halts_bind; [apply halts_call|done]. Qed.

Lemma halts_typedSignatureHashBuffer (typedData : list Entry) :
  halts (typedSignatureHashBuffer' typedData).
Proof.
  unfold typedSignatureHashBuffer. destruct (_ =? _)%nat; [done|].
  apply halts_bind; [apply halts_mapM, halts_entryData|]. intros data _.
  apply halts_bind.
  { apply halts_mapM. intros x. unfold entrySchema. by destruct (negb _). }
  intros schema _. apply halts_bind; [apply halts_soliditySHA3|]. intros h1 _.
  apply halts_bind; [apply halts_soliditySHA3|]. intros h2 _. apply halts_soliditySHA3.
Qed.

(** An entry has a name when it holds one that is not the empty string. *)
Lemma hasName_spec (e : Entry) :
  hasName e = true ↔ ∃ name, e_name e = Some name ∧ name ≠ "".
Proof.
  unfold hasName, nonEmpty. destruct (e_name e) as [name|].
  - rewrite negb_true_iff, String.eqb_neq. split; [eauto|by intros (? & [= <-] & ?)].
  - split; [done|by intros (? & ? & _)].
Qed.

(** C7, as the code has it.  The values of type "bytes" are converted
    first: one that [toBuffer] does not take (a boolean, a plain object)
    makes the call throw "invalid type", whether the entries have names
    or not.  Otherwise the call throws "Expect argument to be non-empty
    array" on the empty list and on a list with an entry that has no
    name; and on a non-empty list of named entries it is the Keccak256 of
    the packing, as two bytes32, of the Keccak256 of the packed "type
    name" strings and the Keccak256 of the packed types and values, or the
    throw of the packing. *)
Theorem typedSignatureHashBuffer_cases (typedData : list Entry) :
  typedSignatureHashBuffer' [] = Throw ExpectNonEmptyArray ∧
  (typedData ≠ [] →
   (∃ e, e ∈ typedData ∧ String.eqb (e_type e) "bytes" = true ∧
         ethUtil.toBuffer arrayBytes (e_value e) = Throw InvalidType) →
   typedSignatureHashBuffer' typedData = Throw InvalidType) ∧
  (∀ data,
     Forall2 (λ e value,
                if String.eqb (e_type e) "bytes"
                then ∃ b, ethUtil.toBuffer arrayBytes (e_value e) = Return b ∧
                          value = VBuffer b
                else value = e_value e)
             typedData data →
     ((∃ e, e ∈ typedData ∧ (e_name e = None ∨ e_name e = Some "")) →
      typedSignatureHashBuffer' typedData = Throw ExpectNonEmptyArray) ∧
     (typedData ≠ [] →
      (∀ e, e ∈ typedData → ∃ name, e_name e = Some name ∧ name ≠ "") →
      typedSignatureHashBuffer' typedData =
        (packedSchema ←
           call (solidityPack
                   (repeat "string" (length typedData))
                   ((λ e, VStr (e_type e +:+ " " +:+ default "" (e_name e))) <$> typedData));
         packedData ← call (solidityPack (e_type <$> typedData) data);
         packed ←
           call (solidityPack ["bytes32"; "bytes32"]
                   [VBuffer (keccak256 packedSchema); VBuffer (keccak256 packedData)]);
         Return (keccak256 packed)))).
Proof.
  split_and!; [done| |].
  - intros Hne (e & He & Hb & Hthrow). unfold typedSignatureHashBuffer.
    assert ((length typedData =? 0)%nat = false) as -> by (by destruct typedData).
    destruct (mapM entryData' typedData) as [data|err|] eqn:Ed; cbn [mbind outcome_bind].
    + exfalso. apply mapM_entryData_Return in Ed.
      apply list_elem_of_lookup in He as [i Hi].
      destruct (Forall2_lookup_l _ _ _ _ _ Ed Hi) as (value & _ & Hv).
      rewrite Hb in Hv. destruct Hv as (b & Hret & _). congruence.
    + by rewrite (mapM_entryData_throws _ _ Ed).
    + exfalso. by eapply (halts_mapM entryData' typedData halts_entryData).
  - intros data Hdata%mapM_entryData_Return. split.
    + intros (e & He & Hname).
      assert (typedData ≠ []) as Hne by (intros ->; by apply elem_of_nil in He).
      unfold typedSignatureHashBuffer.
      assert ((length typedData =? 0)%nat = false) as -> by (by destruct typedData).
      rewrite Hdata. cbn [mbind outcome_bind]. rewrite mapM_entrySchema_unnamed; [done|].
      exists e. split; [done|]. unfold hasName. by destruct Hname as [-> | ->].
    + intros Hne Hall. unfold typedSignatureHashBuffer.
      assert ((length typedData =? 0)%nat = false) as -> by (by destruct typedData).
      rewrite Hdata. cbn [mbind outcome_bind].
      rewrite mapM_entrySchema_named by (intros e He; by apply hasName_spec, Hall).
      cbn [mbind outcome_bind]. unfold soliditySHA3, entryType, schemaText.
      destruct (solidityPack (repeat _ _) _) as [packedSchema|]; [|reflexivity].
      cbn [call mbind outcome_bind].
      change (λ e : Entry, e_type e) with e_type.
      destruct (solidityPack _ data) as [packedData|]; reflexivity.
Qed.

(** ** The signing entry points *)

Lemma invoke_this (method : string) : invoke hostGet this method = Throw TypeError.
Proof. done. Qed.

Lemma throws_after {A B} (m : outcome A) (k : A -> outcome B) :
  halts m → (∀ a, ∃ e, k a = Throw e) → ∃ e, m ≫= k = Throw e.
Proof.
  intros Hm Hk. destruct m as [a|e|]; cbn; [apply Hk|eauto|done].
Qed.

(** C9: none of [personalSign], [signTypedDataLegacy] and [signTypedData]
    ever returns; once the hash and the signature are computed each of
    them reads [concatSig] from [this], which is undefined, and throws a
    TypeError. *)
Theorem signing_never_returns (privateKey : val) (personal : MsgParams val)
    (legacy : MsgParams (list Entry)) (typed : MsgParams TypedData) :
  ((∃ e, personalSign arrayBytes hostGet ecsign hashPersonalMessage privateKey personal
         = Throw e) ∧
   (∃ e, signTypedDataLegacy arrayBytes hostGet keccak256 solidityPack ecsign privateKey legacy
         = Throw e) ∧
   (∃ e, signTypedData arrayBytes hostGet frames keccak256 rawEncode ecsign privateKey typed
         = Throw e)) ∧
  (∀ message sig,
     ethUtil.toBuffer arrayBytes (mp_data personal) = Return message →
     ecsign (hashPersonalMessage message) privateKey = ExtReturn sig →
     personalSign arrayBytes hostGet ecsign hashPersonalMessage privateKey personal
     = Throw TypeError) ∧
  (∀ msgHash sig,
     typedSignatureHashBuffer' (mp_data legacy) = Return msgHash →
     ecsign msgHash privateKey = ExtReturn sig →
     signTypedDataLegacy arrayBytes hostGet keccak256 solidityPack ecsign privateKey legacy
     = Throw TypeError) ∧
  (∀ message sig,
     sign' (mp_data typed) = Return message →
     ecsign message privateKey = ExtReturn sig →
     signTypedData arrayBytes hostGet frames keccak256 rawEncode ecsign privateKey typed
     = Throw TypeError).
Proof.
  split_and!.
  - unfold personalSign. apply throws_after; [apply halts_toBuffer|]. intros message.
    apply throws_after; [apply halts_call|]. intros sig. rewrite invoke_this. cbn. eauto.
  - unfold signTypedDataLegacy. apply throws_after; [apply halts_typedSignatureHashBuffer|].
    intros msgHash. apply throws_after; [apply halts_call|]. intros sig.
    rewrite invoke_this. cbn. eauto.
  - unfold signTypedData. apply throws_after; [apply halts_sign|]. intros message.
    apply throws_after; [apply halts_call|]. intros sig. rewrite invoke_this. cbn. eauto.
  - intros message sig Hm Hs. unfold personalSign. by rewrite Hm; cbn; rewrite Hs.
  - intros msgHash sig Hm Hs. unfold signTypedDataLegacy. by rewrite Hm; cbn; rewrite Hs.
  - intros message sig Hm Hs. unfold signTypedData. by rewrite Hm; cbn; rewrite Hs.
Qed.

End typed_data_properties.

(** * Further properties *)

(** ** The walk reaches what can be reached *)

Lemma findTypeDependencies_rtc (types : Schema) (root : TypeKey) (found : list TypeKey) :
  findTypeDependencies root types = Return found →
  is_Some (types !! keyString root) →
  ∀ x, x ∈ found ↔ rtc (refersTo types) root x.
Proof.
  intros Hfound Hroot x. pose proof (findTypeDependencies_outcome types root) as Hout.
  rewrite Hfound in Hout.
  destruct Hout as [(_ & _ & _ & Hin) (_ & _ & Hsound & Hclosed & _)]. split.
  - intros Hx. apply Hsound; [done|apply not_elem_of_nil].
  - revert x. apply (rtc_ind_r (λ x, x ∈ found)).
    + apply Hin. by right.
    + intros x y _ Hxy Hx. eapply Hclosed; [exact Hx|apply not_elem_of_nil|done].
Qed.

(** X1: for a root that is a struct of the schema, the list the walk
    returns is the root followed by the other struct types that can be
    reached from it through the types of fields: each of them, and
    nothing else.  The walk does not return but throws a TypeError
    exactly when a struct it reaches has a field whose type is a name the
    schema does not hold but every object inherits from
    Object.prototype. *)
Theorem findTypeDependencies_reachable (root : TypeKey) (schema : Schema) :
  is_Some (schema !! keyString root) →
  (∀ found, findTypeDependencies root schema = Return found →
     (∃ others, found = root :: others) ∧
     (∀ x, x ∈ found ↔ rtc (refersTo schema) root x)) ∧
  (findTypeDependencies root schema = Throw TypeError ↔
   ∃ x fields field,
     rtc (refersTo schema) root x ∧
     schema !! keyString x = Some fields ∧ field ∈ fields ∧
     schema !! f_type field = None ∧
     f_type field ∈
       [ "constructor"; "__defineGetter__"; "__defineSetter__"; "hasOwnProperty";
         "__lookupGetter__"; "__lookupSetter__"; "isPrototypeOf"; "propertyIsEnumerable";
         "toString"; "valueOf"; "__proto__"; "toLocaleString" ]) ∧
  ((∃ found, findTypeDependencies root schema = Return found) ∨
   findTypeDependencies root schema = Throw TypeError).
Proof.
  intros Hroot. split_and!.
  - intros found Hfound. split; [|by apply findTypeDependencies_rtc].
    pose proof (findTypeDependencies_outcome schema root) as Hout.
    rewrite Hfound in Hout. destruct Hout as [_ (Hhead & _)].
    destruct Hhead as [ext Hext]; [apply not_elem_of_nil|done|]. eauto.
  - rewrite findTypeDependencies_throws. unfold meetsInherited. split.
    + intros [Hinh|(x & Hrtc & Hst)].
      * exfalso. destruct Hroot as [fields Hf]. by rewrite (readType_Own _ _ _ Hf) in Hinh.
      * apply stumbles_spec in Hst as (fields & field & ?). by exists x, fields, field.
    + intros (x & fields & field & Hrtc & Hst). right. exists x. split; [done|].
      apply stumbles_spec. by exists fields, field.
  - pose proof (findTypeDependencies_outcome schema root) as Hout.
    destruct (findTypeDependencies root schema) as [found|e|]; unfold walk_outcome in Hout;
      [left; eauto|right; by destruct Hout as [-> _]|done].
Qed.

(** ** Types that are not reached *)

Lemma readType_delete (types : Schema) (n : string) (k : TypeKey) :
  (is_Some (types !! keyString k) → keyString k ≠ n) →
  readType (delete n types) k = readType types k.
Proof.
  intros Hn. unfold readType. destruct (types !! keyString k) as [fields|] eqn:Hk.
  - rewrite lookup_delete_ne, Hk; [done|]. intros Heq. by apply Hn; [eauto|].
  - by rewrite (proj2 (lookup_delete_None types n (keyString k))); [|right].
Qed.

Lemma unreached_field (types : Schema) (k : TypeKey) (n : string)
    (fields : list FieldDef) (field : FieldDef) :
  types !! keyString k = Some fields → field ∈ fields →
  unreached types k n → unreached types (KName (f_type field)) n.
Proof.
  intros Hk Hfield Hn x Hrtc Hx. apply Hn; [|done].
  eapply rtc_l; [|exact Hrtc]. exists fields, field. split_and!; [done|done|done|].
  apply (reach_defined _ _ _ Hrtc Hx).
Qed.

Lemma walk_delete (types : Schema) (n : string) (fuel : nat) :
  ∀ k results,
    unreached types k n →
    findTypeDependencies_fuel fuel k (delete n types) results
    = findTypeDependencies_fuel fuel k types results.
Proof.
  induction fuel as [|fuel IH]; intros k results Hn; [done|].
  rewrite !walk_step. destruct (includes results k); [done|].
  rewrite readType_delete by (intros Hk; apply Hn; [apply rtc_refl|done]).
  destruct (readType types k) as [fields| |] eqn:Hread; [|done|done].
  apply readType_Own_inv in Hread. apply foldM_ext. intros field acc Hfield.
  rewrite !visit_call. rewrite IH; [done|]. by eapply unreached_field.
Qed.

Lemma findTypeDependencies_delete (root : TypeKey) (types : Schema) (n : string) :
  unreached types root n →
  findTypeDependencies root (delete n types) = findTypeDependencies root types.
Proof.
  intros Hn. unfold findTypeDependencies.
  assert (S (S (size (delete n types))) ≤ S (S (size types)))%nat as Hsize.
  { pose proof (map_size_delete n types) as Hs.
    destruct (types !! n); rewrite Hs; unfold id; lia. }
  rewrite walk_delete by done. symmetry.
  apply findTypeDependencies_fuel_mono; [done|].
  rewrite <- (walk_delete types n) by done. apply halts_findTypeDependencies.
Qed.

Lemma encodeType_loop_agree (types1 types2 : Schema) (deps : list TypeKey) :
  ∀ acc, (∀ dep, dep ∈ deps → readType types1 dep = readType types2 dep) →
    encodeType_loop types1 deps acc = encodeType_loop types2 deps acc.
Proof.
  induction deps as [|dep deps IH]; intros acc Hagree; [done|].
  cbn [encodeType_loop]. rewrite (Hagree dep) by (by left).
  destruct (readType types2 dep) as [children| |] eqn:Hr; [|done|done].
  pose proof (readType_cases types1 dep) as H1. pose proof (readType_cases types2 dep) as H2.
  rewrite (Hagree dep) in H1 by (by left). rewrite Hr in H1, H2.
  apply IH. intros d Hd. apply Hagree. by right.
Qed.

Lemma encodeType_delete (root : TypeKey) (types : Schema) (n : string) :
  unreached types root n →
  encodeType root (delete n types) = encodeType root types.
Proof.
  intros Hn. unfold encodeType. rewrite findTypeDependencies_delete by done.
  destruct (findTypeDependencies root types) as [found|e|] eqn:Hfound; [|done|done].
  cbn [mbind outcome_bind]. apply encodeType_loop_agree. intros dep Hdep.
  apply readType_delete. intros Hdef. apply Hn; [|done].
  apply elem_of_app in Hdep as [->%list_elem_of_singleton|Hdep]; [apply rtc_refl|].
  apply sort_elem_of, list_elem_of_filter in Hdep as [_ Hdep].
  pose proof (findTypeDependencies_outcome types root) as Hout. rewrite Hfound in Hout.
  destruct Hout as [_ (_ & _ & Hsound & _)]. by apply Hsound; [|apply not_elem_of_nil].
Qed.

(** ** padWithZeroes and the width of a signature *)

Lemma length_zeros (n : nat) : String.length (zeros n) = n.
Proof. induction n as [|n IH]; [done|]. simpl zeros. rewrite length_append, IH. done. Qed.

(** X2: [padWithZeroes] puts just as many "0" in front as the text is
    short of the width, and none when it is long enough; the result is as
    long as the longer of the two. *)
Theorem padWithZeroes_pads (number : string) (len : nat) :
  padWithZeroes number len = zeros (len - String.length number) +:+ number ∧
  String.length (padWithZeroes number len) = Nat.max len (String.length number).
Proof.
  rewrite padWithZeroes_spec. split; [done|]. rewrite length_append, length_zeros. lia.
Qed.

Lemma length_padLeft (n : nat) (bs : Buffer) :
  (length bs ≤ n)%nat → length (padLeft n bs) = n.
Proof. intros Hle. unfold padLeft. rewrite length_app, repeat_length. lia. Qed.

Lemma toUnsigned_fromSigned_short (bs : Buffer) :
  (length bs ≤ 32)%nat →
  ethUtil.toUnsigned (ethUtil.fromSigned bs) = ethUtil.toArray (ethUtil.BN bs).
Proof.
  intros Hlen. pose proof (BN_bound bs) as Hb.
  assert ((256 ^ Z.of_nat (length bs) ≤ 2 ^ 256)%Z) as Hpow.
  { change (2 ^ 256) with (256 ^ Z.of_nat 32). apply Z.pow_le_mono_r; lia. }
  unfold ethUtil.toUnsigned, ethUtil.fromSigned. f_equal.
  destruct (Z.testbit _ 255).
  - destruct (_ <? 0)%Z eqn:E; [lia|]. apply Z.ltb_ge in E. lia.
  - destruct (_ <? 0)%Z eqn:E; [|done]. apply Z.ltb_lt in E. lia.
Qed.

Lemma toHex_padLeft (n k : nat) (rest : Buffer) :
  (k + length rest ≤ n)%nat →
  toHex (padLeft n (repeat Byte.x00 k ++ rest))
  = zeros (2 * (n - length rest)) +:+ toHex rest.
Proof.
  intros Hle. unfold padLeft.
  rewrite app_assoc, <- repeat_app, toHex_zero_bytes, length_app, repeat_length.
  f_equal. f_equal. lia.
Qed.

Lemma padded_hex_short (bs : Buffer) :
  (length bs ≤ 32)%nat →
  padWithZeroes (toHex (ethUtil.toUnsigned (ethUtil.fromSigned bs))) 64
  = toHex (padLeft 32 bs).
Proof.
  intros Hlen. rewrite toUnsigned_fromSigned_short, toArray_BN, padWithZeroes_spec by done.
  destruct (stripZeros_split bs) as (k & Hk & Hlk).
  replace (padLeft 32 bs) with (padLeft 32 (repeat Byte.x00 k ++ stripZeros bs))
    by (by rewrite <- Hk).
  rewrite toHex_padLeft by lia.
  destruct (_ =? 0)%Z eqn:E.
  - apply Z.eqb_eq, BN_zero in E. rewrite E. reflexivity.
  - rewrite length_toHex. f_equal. f_equal. lia.
Qed.

Section signature_width.
Context (arrayBytes : list val -> Buffer).

(** X3: a signature whose r or s is shorter than 32 bytes is serialised
    with zero bytes in front of it: the text is always "0x" and 65 bytes
    in hexadecimal, and parsing it gives v and the 32-byte forms of r and
    s. *)
Theorem concatSig_pads_short (v : Z) (r s : Buffer) :
  v = 27 ∨ v = 28 → (length r ≤ 32)%nat → (length s ≤ 32)%nat →
  concatSig arrayBytes (VNum v) r s
    = Return ("0x" +:+ toHex (padLeft 32 r ++ padLeft 32 s ++ [byteOf v])) ∧
  (sig ← concatSig arrayBytes (VNum v) r s; fromRpcSig arrayBytes (VStr sig))
    = Return {| ethUtil.sig_v := v; ethUtil.sig_r := padLeft 32 r;
                ethUtil.sig_s := padLeft 32 s |}.
Proof.
  intros Hv Hr Hs.
  assert (concatSig arrayBytes (VNum v) r s
          = Return ("0x" +:+ toHex (padLeft 32 r ++ padLeft 32 s ++ [byteOf v]))) as Hsig.
  { unfold concatSig. rewrite !padded_hex_short by done.
    assert (ethUtil.bufferToInt arrayBytes (VNum v) = Return v) as ->
      by (destruct Hv as [-> | ->]; reflexivity).
    cbn [mbind outcome_bind]. f_equal.
    assert (ethUtil.stripHexPrefix (ethUtil.intToHex v) = toHex [byteOf v]) as ->
      by (destruct Hv as [-> | ->]; reflexivity).
    rewrite <- !toHex_app. unfold ethUtil.addHexPrefix.
    pose proof (length_padLeft 32 r Hr) as Hlen.
    destruct (padLeft 32 r) as [|b r']; [done|]. cbn [app toHex].
    by rewrite isHexPrefixed_byteHex. }
  split; [done|]. rewrite Hsig. cbn [mbind outcome_bind].
  apply fromRpcSig_hex; [destruct Hv as [-> | ->]; lia|by apply length_padLeft..].
Qed.

End signature_width.

(** ** normalize as a canonical form *)

Section normalize_properties.
Context (arrayBytes : list val -> Buffer).

Lemma toLowerCase_empty (s : string) : String.eqb (toLowerCase s) "" = String.eqb s "".
Proof. by destruct s. Qed.

Lemma prefixed_nonempty (s : string) : ethUtil.isHexPrefixed s = true → String.eqb s "" = false.
Proof. by destruct s. Qed.

Lemma normalize_string (s : string) :
  normalize arrayBytes (VStr s) =
  if String.eqb s "" then Return VUndefined
  else Return (VStr (ethUtil.addHexPrefix (toLowerCase s))).
Proof. unfold normalize. cbn [truthy]. by destruct (String.eqb s ""). Qed.

Lemma normalize_number (z : Z) :
  normalize arrayBytes (VNum z) =
  if (z =? 0)%Z then Return VUndefined
  else Return (VStr (ethUtil.addHexPrefix (toLowerCase ("0x" +:+ toHex (ethUtil.intToBuffer z))))).
Proof. unfold normalize. cbn [truthy]. by destruct (z =? 0)%Z. Qed.

(** A text that is lower-case behind "0x" is what [normalize] returns for it. *)
Lemma normalize_fixed (s : string) :
  ethUtil.isHexPrefixed s = true → toLowerCase s = s →
  normalize arrayBytes (VStr s) = Return (VStr s).
Proof.
  intros Hp Hl. rewrite normalize_string, (prefixed_nonempty _ Hp), Hl.
  unfold ethUtil.addHexPrefix. by rewrite Hp.
Qed.

Lemma normalize_addHexPrefix (s : string) :
  normalize arrayBytes (VStr (ethUtil.addHexPrefix (toLowerCase s)))
  = Return (VStr (ethUtil.addHexPrefix (toLowerCase s))).
Proof.
  apply normalize_fixed; [apply addHexPrefix_prefixed|].
  apply addHexPrefix_lower, toLowerCase_idem.
Qed.

Lemma normalize_hex (bs : Buffer) :
  normalize arrayBytes (VStr ("0x" +:+ toHex bs)) = Return (VStr ("0x" +:+ toHex bs)).
Proof.
  apply normalize_fixed; [done|].
  change (toLowerCase ("0x" +:+ ?t)) with ("0x" +:+ toLowerCase t).
  by rewrite toLowerCase_toHex.
Qed.

(** X4: what [normalize] returns it returns again when given it, and two
    texts that differ only in the case of their letters have the same
    normal form. *)
Theorem normalize_canonical :
  (∀ input v, normalize arrayBytes input = Return v → normalize arrayBytes v = Return v) ∧
  (∀ s1 s2, toLowerCase s1 = toLowerCase s2 →
            normalize arrayBytes (VStr s1) = normalize arrayBytes (VStr s2)).
Proof.
  split.
  - intros input v.
    destruct input as [| |[]|z| |s|bs|l|kvs|[] name]; try (by cbv; intros [= <-]).
    + rewrite normalize_number. destruct (z =? 0)%Z; intros H; [by injection H as <-|].
      assert (VStr (ethUtil.addHexPrefix
                      (toLowerCase ("0x" +:+ toHex (ethUtil.intToBuffer z)))) = v)
        as <- by congruence.
      apply normalize_addHexPrefix.
    + rewrite normalize_string. destruct (String.eqb s ""); intros H; [by injection H as <-|].
      assert (VStr (ethUtil.addHexPrefix (toLowerCase s)) = v) as <- by congruence.
      apply normalize_addHexPrefix.
  - intros s1 s2 Hs. rewrite !normalize_string.
    rewrite <- (toLowerCase_empty s1), <- (toLowerCase_empty s2), Hs. done.
Qed.

End normalize_properties.

(** ** Recovering the signer *)

Section recovery_properties.
Context (arrayBytes : list val -> Buffer).
Context (hostGet : val -> string -> ext val).
Context (frames : nat).
Context (keccak256 : Buffer -> Buffer).
Context (rawEncode : list string -> list val -> ext Buffer).
Context (solidityPack : list string -> list val -> ext Buffer).
Context (hashPersonalMessage : Buffer -> Buffer).
Context (ethUtil_ecrecover : Buffer -> Z -> Buffer -> Buffer -> ext Buffer).
Context (publicToAddress : Buffer -> ext Buffer).

Local Abbreviation recoverPublicKey' := (recoverPublicKey arrayBytes ethUtil_ecrecover).
Local Abbreviation getPublicKeyFor' :=
  (getPublicKeyFor arrayBytes hashPersonalMessage ethUtil_ecrecover).
Local Abbreviation ecrecover' :=
  (ecrecover arrayBytes hashPersonalMessage ethUtil_ecrecover publicToAddress).
Local Abbreviation recoverPersonalSignature' :=
  (recoverPersonalSignature arrayBytes hashPersonalMessage ethUtil_ecrecover publicToAddress).
Local Abbreviation extractPublicKey' :=
  (extractPublicKey arrayBytes hashPersonalMessage ethUtil_ecrecover).
Local Abbreviation typedSignatureHash' := (typedSignatureHash arrayBytes keccak256 solidityPack).
Local Abbreviation recoverTypedSignatureLegacy' :=
  (recoverTypedSignatureLegacy arrayBytes keccak256 solidityPack ethUtil_ecrecover
     publicToAddress).
Local Abbreviation recoverTypedSignature' :=
  (recoverTypedSignature arrayBytes hostGet frames keccak256 rawEncode ethUtil_ecrecover
     publicToAddress).

(** [recoverPublicKey] parses the signature as [fromRpcSig] does. *)
Lemma recoverPublicKey_fromRpcSig (hash : Buffer) (sig : val) :
  recoverPublicKey' hash sig =
  sigParams ← fromRpcSig arrayBytes sig;
  call (ethUtil_ecrecover hash (ethUtil.sig_v sigParams) (ethUtil.sig_r sigParams)
          (ethUtil.sig_s sigParams)).
Proof.
  unfold recoverPublicKey, fromRpcSig.
  by destruct (ethUtil.toBuffer arrayBytes sig) as [signature| |].
Qed.

(** X5: the personal-message recovery is written twice, as [ecrecover]
    and as [recoverPersonalSignature] over [getPublicKeyFor] and
    [recoverPublicKey]; the two give the same result, return or throw,
    for every message and signature. *)
Theorem ecrecover_recoverPersonalSignature (msg sig : val) :
  ecrecover' msg sig = recoverPersonalSignature' {| rp_data := msg; rp_sig := sig |}.
Proof.
  unfold ecrecover, recoverPersonalSignature, getPublicKeyFor, toBuffer, bufferToHex.
  cbn [rp_data rp_sig].
  destruct (ethUtil.toBuffer arrayBytes msg) as [message| |]; [|done|done].
  cbn [mbind outcome_bind]. rewrite recoverPublicKey_fromRpcSig.
  destruct (fromRpcSig arrayBytes sig) as [sigParams| |]; [|done|done].
  cbn [mbind outcome_bind].
  destruct (ethUtil_ecrecover _ _ _ _) as [publicKey|]; [|done].
  cbn [call mbind outcome_bind].
  destruct (publicToAddress publicKey) as [sender|]; [|done].
  cbn [call mbind outcome_bind].
  by destruct (ethUtil.bufferToHex arrayBytes (VBuffer sender)).
Qed.

(** X6: recovery hands the curve the triple that was serialised: for v in
    {27, 28} and 32-byte r and s, [recoverPublicKey] on the text of
    [concatSig] is the call of the curve routine on that v, r and s. *)
Theorem recoverPublicKey_concatSig (hash : Buffer) (v : Z) (r s : Buffer) :
  v = 27 ∨ v = 28 → length r = 32%nat → length s = 32%nat →
  (sig ← concatSig arrayBytes (VNum v) r s; recoverPublicKey' hash (VStr sig))
  = call (ethUtil_ecrecover hash v r s).
Proof.
  intros Hv Hr Hs. rewrite concatSig_hex by done. cbn [mbind outcome_bind].
  rewrite recoverPublicKey_fromRpcSig, fromRpcSig_hex; [done| |done|done].
  destruct Hv as [-> | ->]; lia.
Qed.

Lemma byteVal_lookup (bs : Buffer) (i : nat) :
  0 ≤ default 0 (byteVal <$> bs !! i) < 256.
Proof.
  destruct (bs !! i) as [b|]; simpl; [apply byteVal_range|lia].
Qed.

(** X7: [recoverPublicKey] reaches the curve only with a signature of 65
    bytes: a signature that converts to another number of bytes is
    rejected as of invalid length, and whenever a key is returned it was
    recovered from the first 32 bytes as r, the next 32 as s, and a v that
    is at least 27. *)
Theorem recoverPublicKey_signature_shape (hash : Buffer) (sig : val) :
  (∀ signature, ethUtil.toBuffer arrayBytes sig = Return signature →
     length signature ≠ 65%nat →
     recoverPublicKey' hash sig = Throw InvalidSignatureLength) ∧
  (∀ publicKey, recoverPublicKey' hash sig = Return publicKey →
     ∃ signature v,
       ethUtil.toBuffer arrayBytes sig = Return signature ∧ length signature = 65%nat ∧
       27 ≤ v < 256 ∧
       ethUtil_ecrecover hash v (take 32 signature) (take 32 (drop 32 signature))
       = ExtReturn publicKey).
Proof.
  unfold recoverPublicKey, ethUtil.fromRpcSig. split.
  - intros signature -> Hlen. cbn [mbind outcome_bind ethUtil.toBuffer].
    apply Nat.eqb_neq in Hlen. by rewrite Hlen.
  - intros publicKey. destruct (ethUtil.toBuffer arrayBytes sig) as [signature| |]; [|done|done].
    cbn [mbind outcome_bind ethUtil.toBuffer].
    destruct (length signature =? 65)%nat eqn:Hlen; [|done]. apply Nat.eqb_eq in Hlen.
    cbn [negb mbind outcome_bind ethUtil.sig_v ethUtil.sig_r ethUtil.sig_s].
    pose proof (byteVal_lookup signature 64) as Hb.
    destruct (ethUtil_ecrecover _ _ _ _) as [pk|] eqn:Hcall; [|done].
    intros [= <-]. eexists signature, _. split_and!; [done|done| | |exact Hcall].
    + destruct (_ <? 27)%Z eqn:E; [lia|]. apply Z.ltb_ge in E. lia.
    + destruct (_ <? 27)%Z eqn:E; [apply Z.ltb_lt in E|]; lia.
Qed.

Lemma bufferToHex_buffer (bs : Buffer) :
  ethUtil.bufferToHex arrayBytes (VBuffer bs) = Return ("0x" +:+ toHex bs).
Proof. done. Qed.

Lemma address_normal {A} (m : outcome A) (k : A -> ext Buffer) (out : string) :
  (publicKey ← m; sender ← call (k publicKey);
   ethUtil.bufferToHex arrayBytes (VBuffer sender)) = Return out →
  normalize arrayBytes (VStr out) = Return (VStr out).
Proof.
  destruct m as [publicKey| |]; [|done|done]. cbn [mbind outcome_bind].
  destruct (k publicKey) as [sender|]; [|done]. cbn [call mbind outcome_bind].
  rewrite bufferToHex_buffer. intros [= <-]. apply normalize_hex.
Qed.

Lemma address_normal_bound {A} (m : outcome A) (k : A -> ext Buffer) (out : string) :
  (publicKey ← m; sender ← call (k publicKey);
   senderHex ← ethUtil.bufferToHex arrayBytes (VBuffer sender); Return senderHex)
  = Return out →
  normalize arrayBytes (VStr out) = Return (VStr out).
Proof.
  destruct m as [publicKey| |]; [|done|done]. cbn [mbind outcome_bind].
  destruct (k publicKey) as [sender|]; [|done]. cbn [call mbind outcome_bind].
  rewrite bufferToHex_buffer. intros [= <-]. apply normalize_hex.
Qed.

(** X8: the texts the module returns are in normal form: a hash of
    [typedSignatureHash], a key of [extractPublicKey] and an address of
    [ecrecover], [recoverPersonalSignature], [recoverTypedSignatureLegacy]
    or [recoverTypedSignature] is "0x" and lower-case hexadecimal digits,
    and [normalize] returns it as it is. *)
Theorem returned_hex_is_normal (out : string) :
  (∀ typedData, typedSignatureHash' typedData = Return out →
     normalize arrayBytes (VStr out) = Return (VStr out)) ∧
  (∀ msgParams, extractPublicKey' msgParams = Return out →
     normalize arrayBytes (VStr out) = Return (VStr out)) ∧
  (∀ msg sig, ecrecover' msg sig = Return out →
     normalize arrayBytes (VStr out) = Return (VStr out)) ∧
  (∀ msgParams, recoverPersonalSignature' msgParams = Return out →
     normalize arrayBytes (VStr out) = Return (VStr out)) ∧
  (∀ msgParams, recoverTypedSignatureLegacy' msgParams = Return out →
     normalize arrayBytes (VStr out) = Return (VStr out)) ∧
  (∀ msgParams, recoverTypedSignature' msgParams = Return out →
     normalize arrayBytes (VStr out) = Return (VStr out)).
Proof.
  split_and!.
  - intros typedData. unfold typedSignatureHash.
    destruct (typedSignatureHashBuffer _ _ _ _) as [hashBuffer| |]; [|done|done].
    cbn [mbind outcome_bind]. rewrite bufferToHex_buffer. intros [= <-]. apply normalize_hex.
  - intros msgParams. unfold extractPublicKey.
    destruct (getPublicKeyFor _ _ _ _) as [publicKey| |]; [|done|done].
    cbn [mbind outcome_bind]. intros [= <-]. apply normalize_hex.
  - intros msg sig. unfold ecrecover, toBuffer, bufferToHex.
    destruct (ethUtil.toBuffer arrayBytes msg) as [message| |]; [|done|done].
    cbn [mbind outcome_bind].
    destruct (fromRpcSig arrayBytes sig) as [sigParams| |]; [|done|done].
    cbn [mbind outcome_bind]. apply address_normal_bound.
  - intros msgParams. unfold recoverPersonalSignature. apply address_normal_bound.
  - intros msgParams. unfold recoverTypedSignatureLegacy.
    destruct (typedSignatureHashBuffer _ _ _ _) as [msgHash| |]; [|done|done].
    cbn [mbind outcome_bind]. apply address_normal.
  - intros msgParams. unfold recoverTypedSignature.
    destruct (sign _ _ _ _ _ _) as [message| |]; [|done|done].
    cbn [mbind outcome_bind]. apply address_normal.
Qed.

End recovery_properties.

(** ** More on the struct encoder *)

Lemma lastIndexOf_from_end (s : string) (c : ascii) :
  ∀ i found, found < i →
    lastIndexOf_from i s c found = i + Z.of_nat (String.length s) - 1 ↔
    (s = "" ∧ found = i - 1) ∨ lastChar s = Some c.
Proof.
  induction s as [|x s IH]; intros i found Hlt.
  - cbn [lastIndexOf_from String.length lastChar]. split.
    + intros Hf. left. split; [done|lia].
    + intros [[_ ->]|?]; [lia|done].
  - cbn [lastIndexOf_from String.length]. rewrite Nat2Z.inj_succ.
    replace (i + Z.succ (Z.of_nat (String.length s)) - 1)
      with (i + 1 + Z.of_nat (String.length s) - 1) by lia.
    rewrite IH by (destruct (Ascii.eqb x c); lia). split.
    + intros [[-> Hf]|Hl]; right.
      * simpl. destruct (Ascii.eqb_spec x c) as [->|Hne]; [done|lia].
      * by destruct s.
    + intros [[? _]|Hl]; [done|]. destruct s as [|y s].
      * left. split; [done|]. simpl in Hl. injection Hl as ->.
        rewrite Ascii.eqb_refl. lia.
      * by right.
Qed.

(** The test [type.lastIndexOf("]") === type.length - 1] holds of the
    types that end in "]", and of the empty type name. *)
Lemma array_test_spec (type : string) :
  (lastIndexOf type "]" =? Z.of_nat (String.length type) - 1)%Z = true ↔
  type = "" ∨ lastChar type = Some "]"%char.
Proof.
  unfold lastIndexOf. rewrite Z.eqb_eq.
  destruct (lastIndexOf_from_end type "]" 0 (-1)) as [H1 H2]; [lia|]. split.
  - intros H. destruct H1 as [[? _]|?]; [lia|by left|by right].
  - intros H. rewrite H2; [lia|]. destruct H; [by left|by right].
Qed.

(** A name the schema does not hold is read as a member of
    Object.prototype, or as undefined. *)
Lemma readType_absent (types : Schema) (type : TypeKey) :
  types !! keyString type = None →
  readType types type =
    if decide (keyString type ∈
         [ "constructor"; "__defineGetter__"; "__defineSetter__"; "hasOwnProperty";
           "__lookupGetter__"; "__lookupSetter__"; "isPrototypeOf"; "propertyIsEnumerable";
           "toString"; "valueOf"; "__proto__"; "toLocaleString" ])
    then Inherited else Missing.
Proof.
  intros Hno. rewrite readType_None by done.
  destruct (inherited (keyString type)) as [v|] eqn:E.
  - rewrite decide_True; [done|]. apply inherited_names. eauto.
  - rewrite decide_False; [done|]. intros Hin. apply inherited_names in Hin as [v Hv].
    congruence.
Qed.

Section struct_encoder.
Context (arrayBytes : list val -> Buffer).
Context (hostGet : val -> string -> ext val).
Context (frames : nat).
Context (keccak256 : Buffer -> Buffer).
Context (rawEncode : list string -> list val -> ext Buffer).

Local Abbreviation get' := (get hostGet).
Local Abbreviation present' := (present hostGet).
Local Abbreviation sha3' := (sha3 arrayBytes keccak256).
Local Abbreviation hashType' := (hashType arrayBytes keccak256).
Local Abbreviation encodeValue' := (encodeValue arrayBytes keccak256).
Local Abbreviation encodeField' := (encodeField arrayBytes hostGet keccak256).
Local Abbreviation encodeData_fuel' := (encodeData_fuel arrayBytes hostGet keccak256 rawEncode).
Local Abbreviation encodeData' := (encodeData arrayBytes hostGet frames keccak256 rawEncode).
Local Abbreviation encodeNested' := (encodeNested arrayBytes hostGet frames keccak256 rawEncode).
Local Abbreviation encodeSlot' := (encodeSlot arrayBytes hostGet frames keccak256 rawEncode).
Local Abbreviation hashStruct' := (hashStruct arrayBytes hostGet frames keccak256 rawEncode).
Local Abbreviation sign' := (sign arrayBytes hostGet frames keccak256 rawEncode).

Lemma hashType_absent (type : TypeKey) (types : Schema) :
  types !! keyString type = None → hashType' type types = Throw (rejection type).
Proof.
  intros Hno. pose proof (readType_absent types type Hno) as Hr. unfold rejection.
  case_decide.
  - by apply hashType_inherited.
  - by apply hashType_missing.
Qed.

Lemma encodeData_absent (type : TypeKey) (data : val) (types : Schema) :
  types !! keyString type = None → encodeData' type data types = Throw (rejection type).
Proof. intros Hno. by rewrite encodeData_unfold, hashType_absent. Qed.

Lemma hashStruct_absent (type : TypeKey) (data : val) (types : Schema) :
  types !! keyString type = None → hashStruct' type data types = Throw (rejection type).
Proof. intros Hno. unfold hashStruct. by rewrite encodeData_absent. Qed.

Lemma encodeData_of_null (type : TypeKey) (field : FieldDef) (fields : list FieldDef)
    (data : val) (types : Schema) :
  data = VNull ∨ data = VUndefined →
  types !! keyString type = Some (field :: fields) →
  encodeData' type data types = Throw TypeError.
Proof.
  intros Hdata Hty. erewrite encodeData_own by done.
  destruct (hashType_entry arrayBytes keccak256 type types) as [[hash ->]| ->]; [eauto| |done].
  cbn [mbind outcome_bind foldM]. by destruct Hdata as [-> | ->].
Qed.

Lemma hashStruct_of_null (type : TypeKey) (field : FieldDef) (fields : list FieldDef)
    (data : val) (types : Schema) :
  data = VNull ∨ data = VUndefined →
  types !! keyString type = Some (field :: fields) →
  hashStruct' type data types = Throw TypeError.
Proof.
  intros Hdata Hty. unfold hashStruct. by rewrite (encodeData_of_null _ field fields).
Qed.

(** X10: a type the schema does not hold is rejected by [hashType],
    [encodeData] and [hashStruct] alike and whatever the data is; the loop
    over its fields is never reached.  It is rejected by name, as without
    a type definition, unless the name is one every object inherits from
    Object.prototype: then the walk over the types throws a TypeError. *)
Theorem unknown_type_rejected (type : TypeKey) (data : val) (types : Schema) :
  types !! keyString type = None →
  let rejected :=
    if decide (keyString type ∈
         [ "constructor"; "__defineGetter__"; "__defineSetter__"; "hasOwnProperty";
           "__lookupGetter__"; "__lookupSetter__"; "isPrototypeOf"; "propertyIsEnumerable";
           "toString"; "valueOf"; "__proto__"; "toLocaleString" ])
    then TypeError else NoTypeDefinition (keyString type) in
  hashType' type types = Throw rejected ∧
  encodeData' type data types = Throw rejected ∧
  hashStruct' type data types = Throw rejected.
Proof.
  intros Hno. split_and!;
    [by apply hashType_absent|by apply encodeData_absent|by apply hashStruct_absent].
Qed.

Lemma encodeData_agree (type : TypeKey) (data1 data2 : val) (types : Schema) :
  (∀ fields field, types !! keyString type = Some fields → field ∈ fields →
     get' data1 (f_name field) = get' data2 (f_name field)) →
  encodeData' type data1 types = encodeData' type data2 types.
Proof.
  intros Hagree. rewrite !encodeData_unfold.
  destruct (hashType' type types) as [hash| |]; [|done|done]. cbn [mbind outcome_bind].
  destruct (readType types type) as [fields| |] eqn:Hread; [|done|done].
  apply readType_Own_inv in Hread.
  rewrite (foldM_ext _ (encodeField' (λ type value, encodeNested' type value types) types
                                     data2)); [done|].
  intros field [ts vs] Hfield. unfold encodeField. by rewrite (Hagree fields field).
Qed.

(** X11: [encodeData] reads of the data the properties named by the
    fields of the type, and nothing else: two values that give the same
    under each of these names have the same encoding.  For two objects
    that is the case when they hold the same own property, or both none,
    under each of these names, whatever other properties they hold and in
    whatever order. *)
Theorem encodeData_reads_declared_fields (type : TypeKey) (fields : list FieldDef)
    (types : Schema) :
  types !! keyString type = Some fields →
  (∀ data1 data2,
     (∀ field, field ∈ fields → get' data1 (f_name field) = get' data2 (f_name field)) →
     encodeData' type data1 types = encodeData' type data2 types ∧
     hashStruct' type data1 types = hashStruct' type data2 types) ∧
  (∀ d1 d2,
     (∀ field value, field ∈ fields →
        holds d1 (f_name field) value ↔ holds d2 (f_name field) value) →
     encodeData' type (VObj d1) types = encodeData' type (VObj d2) types ∧
     hashStruct' type (VObj d1) types = hashStruct' type (VObj d2) types).
Proof.
  intros Hty.
  assert (∀ data1 data2,
     (∀ field, field ∈ fields → get' data1 (f_name field) = get' data2 (f_name field)) →
     encodeData' type data1 types = encodeData' type data2 types ∧
     hashStruct' type data1 types = hashStruct' type data2 types) as Hgen.
  { intros data1 data2 Hagree.
    assert (encodeData' type data1 types = encodeData' type data2 types) as Heq.
    { apply encodeData_agree. intros fs field Hfs Hfield. apply Hagree. congruence. }
    split; [done|]. unfold hashStruct. by rewrite Heq. }
  split; [done|]. intros d1 d2 Hagree. apply Hgen. intros field Hfield.
  cbn [get]. f_equal. unfold readProp.
  assert (ownProp (f_name field) d1 = ownProp (f_name field) d2) as ->; [|done].
  destruct (ownProp (f_name field) d1) as [v|] eqn:E1.
  - symmetry. by apply ownProp_holds, Hagree, ownProp_holds.
  - destruct (ownProp (f_name field) d2) as [v|] eqn:E2; [|done].
    apply ownProp_holds, Hagree, ownProp_holds in E2; [congruence|done].
Qed.

(** X12: null or undefined in the place of a struct with at least one
    field makes [encodeData] and [hashStruct] throw a TypeError: the first
    field is read off it. *)
Theorem encodeData_null_data (type : TypeKey) (field : FieldDef) (fields : list FieldDef)
    (data : val) (types : Schema) :
  data = VNull ∨ data = VUndefined →
  types !! keyString type = Some (field :: fields) →
  encodeData' type data types = Throw TypeError ∧
  hashStruct' type data types = Throw TypeError.
Proof.
  intros Hdata Hty. split; [by eapply encodeData_of_null|by eapply hashStruct_of_null].
Qed.

(** X13: what [sign] asks of the schema and the domain.  A schema without
    EIP712Domain is rejected by that name; when EIP712Domain declares a
    field and the message has no truthy domain, [sign] throws a TypeError;
    and a primaryType the schema does not hold (undefined when the message
    has none) is rejected once the domain has been hashed: by name, or
    with a TypeError when the name is one every object inherits from
    Object.prototype. *)
Theorem sign_rejects (typedData : TypedData) (types : Schema) :
  td_types typedData = Value types →
  let kept := sanitizeData typedData in
  let primaryType := readKey (s_primaryType kept) in
  (types !! "EIP712Domain" = None →
     sign' typedData = Throw (NoTypeDefinition "EIP712Domain")) ∧
  (∀ field fields,
     types !! "EIP712Domain" = Some (field :: fields) → s_domain kept = None →
     sign' typedData = Throw TypeError) ∧
  (types !! keyString primaryType = None →
     sign' typedData =
       (_ ← hashStruct' (KName "EIP712Domain") (readObject (s_domain kept)) types;
        Throw (if decide (keyString primaryType ∈
                    [ "constructor"; "__defineGetter__"; "__defineSetter__";
                      "hasOwnProperty"; "__lookupGetter__"; "__lookupSetter__";
                      "isPrototypeOf"; "propertyIsEnumerable"; "toString"; "valueOf";
                      "__proto__"; "toLocaleString" ])
               then TypeError else NoTypeDefinition (keyString primaryType)))).
Proof.
  intros Ht kept primaryType.
  assert (s_types kept = Some types) as Hs.
  { unfold kept, sanitizeData. cbn [s_types]. by rewrite Ht. }
  split_and!.
  - intros Hno. unfold sign. fold kept. rewrite Hs.
    by rewrite (hashStruct_absent (KName "EIP712Domain")).
  - intros field fields Hdom Hnone. unfold sign. fold kept. rewrite Hs, Hnone.
    cbn [readObject].
    by rewrite (hashStruct_of_null (KName "EIP712Domain") field fields); [|right|].
  - intros Hno. unfold sign. fold kept. rewrite Hs.
    destruct (hashStruct' (KName "EIP712Domain") _ types) as [h| |]; [|done|done].
    cbn [mbind outcome_bind]. fold primaryType. by rewrite hashStruct_absent.
Qed.

Lemma encodeValue_plain (self : TypeKey -> val -> outcome Buffer) (types : Schema)
    (field : FieldDef) (value : val) :
  f_type field ≠ "string" → f_type field ≠ "bytes" →
  readType types (KName (f_type field)) = Missing →
  encodeValue' self types field value =
    if decide (f_type field = "" ∨ lastChar (f_type field) = Some "]"%char)
    then Throw ArraysUnimplemented
    else Return (f_type field, value).
Proof.
  intros Hs Hb Hno. unfold encodeValue. rewrite Hno.
  apply String.eqb_neq in Hs, Hb. rewrite Hs, Hb. cbn [orb isDefined].
  destruct (lastIndexOf _ _ =? _)%Z eqn:E.
  - apply array_test_spec in E. by rewrite decide_True.
  - rewrite decide_False; [done|]. intros H. apply array_test_spec in H. congruence.
Qed.


(** X15: a struct whose fields all have plain types is encoded without a
    hash below the one of its type: the encoder is given the type hash as
    bytes32 and then, in the order of declaration, each field that is
    there, under its declared type and with the value read from the
    object: its own property, or else the member of Object.prototype of
    that name. *)
Theorem encodeData_plain_struct (type : TypeKey) (fields : list FieldDef)
    (d : list (string * val)) (types : Schema) :
  types !! keyString type = Some fields →
  (∀ field, field ∈ fields → plainType types (f_type field)) →
  let there := filter (λ field, present' (VObj d) field = true) fields in
  let read := λ field,
    match ownProp (f_name field) d with
    | Some value => value
    | None => default VUndefined (ownProp (f_name field) objectPrototype)
    end in
  encodeData' type (VObj d) types =
    (hash ← hashType' type types;
     call (rawEncode ("bytes32" :: (f_type <$> there)) (VBuffer hash :: (read <$> there)))).
Proof.
  intros Hty Hplain there read. erewrite encodeData_own by done.
  destruct (hashType' type types) as [hash| |]; [|done|done]. cbn [mbind outcome_bind].
  rewrite foldM_encodeField_present. fold there.
  rewrite (mapM_Return _ (λ field, (f_type field, read field))).
  - cbn [mbind outcome_bind]. by rewrite <- !list_fmap_compose.
  - intros field [_ Hfield]%list_elem_of_filter. cbn [get mbind outcome_bind].
    destruct (Hplain field Hfield) as (Hs & Hb & Hno & Hni & Hne & Hl).
    rewrite encodeValue_plain; [|done|done|].
    + rewrite decide_False; [done|]. by intros [?|?].
    + rewrite (readType_absent types (KName (f_type field))) by done. by rewrite decide_False.
Qed.

Lemma encodeData_fuel_delete (types : Schema) (n : string) (fuel : nat) :
  ∀ type data,
    unreached types type n →
    encodeData_fuel' fuel type data (delete n types) = encodeData_fuel' fuel type data types.
Proof.
  induction fuel as [|fuel IH]; intros type data Hn; [done|].
  cbn [encodeData_fuel]. unfold hashType. rewrite encodeType_delete by done.
  destruct (encodeType type types) as [encoded| |]; cbn [mbind outcome_bind]; [|done|done].
  destruct (sha3' (VStr encoded)) as [hash| |]; cbn [mbind outcome_bind]; [|done|done].
  rewrite readType_delete by (intros Hk; apply Hn; [apply rtc_refl|done]).
  destruct (readType types type) as [fields| |] eqn:Hread; [|done|done].
  apply readType_Own_inv in Hread.
  rewrite (foldM_ext _ (encodeField' (λ type value, encodeData_fuel' fuel type value types)
                                     types data)); [done|].
  intros field [ts vs] Hfield. unfold encodeField.
  destruct (get' data (f_name field)) as [value| |]; cbn [mbind outcome_bind]; [|done|done].
  destruct (isUndefined value); [done|].
  assert (encodeValue' (λ type value, encodeData_fuel' fuel type value (delete n types))
                       (delete n types) field value
          = encodeValue' (λ type value, encodeData_fuel' fuel type value types)
                         types field value) as ->; [|done].
  pose proof (unreached_field _ _ _ _ _ Hread Hfield Hn) as Hnext.
  unfold encodeValue. destruct (String.eqb _ _ || String.eqb _ _); [done|].
  rewrite readType_delete by (intros Hk; apply Hnext; [apply rtc_refl|done]).
  by rewrite IH.
Qed.

(** X16: a type of the schema that the struct at hand does not reach
    plays no part: with its definition removed, the dependencies, the
    text of the type, its hash, the encoding of the data and the hash of
    the struct are all what they were.  Not reached is a type that is not
    in the list of dependencies or, when the walk throws, not among the
    structs that the fields lead to. *)
Theorem unreached_type_is_ignored (type : TypeKey) (data : val) (types : Schema)
    (n : string) :
  (∀ found, findTypeDependencies type types = Return found →
     ∀ x, x ∈ found → keyString x ≠ n) →
  (findTypeDependencies type types = Throw TypeError →
     ∀ x, rtc (refersTo types) type x → is_Some (types !! keyString x) → keyString x ≠ n) →
  findTypeDependencies type (delete n types) = findTypeDependencies type types ∧
  encodeType type (delete n types) = encodeType type types ∧
  hashType' type (delete n types) = hashType' type types ∧
  encodeData' type data (delete n types) = encodeData' type data types ∧
  hashStruct' type data (delete n types) = hashStruct' type data types.
Proof.
  intros Hreturn Hthrow.
  assert (unreached types type n) as Hn.
  { intros x Hrtc Hx. pose proof (findTypeDependencies_outcome types type) as Hout.
    destruct (findTypeDependencies type types) as [found|e|] eqn:E;
      unfold walk_outcome in Hout.
    - apply (Hreturn found eq_refl).
      apply (findTypeDependencies_rtc types type found E); [|done].
      by apply (reach_defined _ _ _ Hrtc).
    - destruct Hout as [-> _]. by apply (Hthrow eq_refl x).
    - done. }
  assert (encodeData' type data (delete n types) = encodeData' type data types) as Henc
    by (by apply encodeData_fuel_delete).
  split_and!; [by apply findTypeDependencies_delete|by apply encodeType_delete| |done|].
  - unfold hashType. by rewrite encodeType_delete.
  - unfold hashStruct. by rewrite Henc.
Qed.

End struct_encoder.

(** * Worked examples *)

Example padWithZeroes_abc : padWithZeroes "abc" 5 = "00abc".
Proof. reflexivity. Qed.

Example padWithZeroes_long : padWithZeroes "abcdef" 5 = "abcdef".
Proof. reflexivity. Qed.

Example findTypeDependencies_cycle :
  findTypeDependencies (KName "Person") friendSchema = Return [KName "Person"].
Proof. vm_compute. reflexivity. Qed.

Example encodeType_cycle :
  encodeType (KName "Person") friendSchema = Return "Person(string name,Person friend)".
Proof. vm_compute. reflexivity. Qed.

Example encodeType_unknown :
  encodeType (KName "uint256") personSchema = Throw (NoTypeDefinition "uint256").
Proof. vm_compute. reflexivity. Qed.

(** Names that every object inherits are not undefined in a schema. *)
Example findTypeDependencies_constructor :
  findTypeDependencies (KName "constructor") ∅ = Throw TypeError ∧
  findTypeDependencies (KName "toString") personSchema = Throw TypeError ∧
  findTypeDependencies (KName "Mail") builtinSchema = Throw TypeError.
Proof. split_and!; vm_compute; reflexivity. Qed.

Example concatSig_27 :
  concatSig sampleArrayBytes (VNum 27) (repeat Byte.x00 31 ++ [Byte.x0a]) (repeat Byte.xff 32)
  = Return ("0x000000000000000000000000000000000000000000000000000000000000000a"
            +:+ "ffffffffffffffffffffffffffffffffffffffffffffffffffffffffffffffff"
            +:+ "1b").
Proof. vm_compute. reflexivity. Qed.

(** With v = 1 the text has an odd number of digits; [toBuffer] pads it on
    the left and every byte is read half a byte late. *)
Example fromRpcSig_concatSig_v1 :
  (sig ← concatSig sampleArrayBytes (VNum 1) (repeat Byte.xff 32) (repeat Byte.xff 32);
   fromRpcSig sampleArrayBytes (VStr sig))
  = Return {| ethUtil.sig_v := 241;
              ethUtil.sig_r := Byte.x0f :: repeat Byte.xff 31;
              ethUtil.sig_s := repeat Byte.xff 32 |}.
Proof. vm_compute. reflexivity. Qed.

Example fromRpcSig_short :
  fromRpcSig sampleArrayBytes (VStr "0x1234") = Throw InvalidSignatureLength.
Proof. vm_compute. reflexivity. Qed.

Example normalize_examples :
  normalize sampleArrayBytes (VStr "0XDeadBeef") = Return (VStr "0xdeadbeef") ∧
  normalize sampleArrayBytes (VStr "Hello") = Return (VStr "0xhello") ∧
  normalize sampleArrayBytes (VNum 4095) = Return (VStr "0x0fff") ∧
  normalize sampleArrayBytes (VNum (-1)) = Return (VStr "0x") ∧
  normalize sampleArrayBytes (VStr "") = Return VUndefined ∧
  normalize sampleArrayBytes VUndefined = Return VUndefined ∧
  normalize sampleArrayBytes (VBool true) = Throw (NormalizeInput "boolean") ∧
  normalize sampleArrayBytes (VArr []) = Throw (NormalizeInput "object").
Proof. repeat split; vm_compute; reflexivity. Qed.

Example findTypeDependencies_Mail :
  findTypeDependencies (KName "Mail") personSchema = Return [KName "Mail"; KName "Person"].
Proof. vm_compute. reflexivity. Qed.

Example encodeType_Mail :
  encodeType (KName "Mail") personSchema
  = Return "Mail(Person from,Person to,string contents)Person(string name,address wallet)".
Proof. vm_compute. reflexivity. Qed.






Lemma encodeData_array_field_witness :
  ∃ e, encodeData sampleArrayBytes sampleHostGet sampleFrames sampleKeccak sampleEncode
         (KName "Batch") batch listSchema
       = Throw e.
Proof.
  apply (encodeData_array_field sampleArrayBytes sampleHostGet sampleFrames sampleKeccak
           sampleEncode "Batch"
           [ {| f_name := "id"; f_type := "uint256" |} ] []
           {| f_name := "amounts"; f_type := "uint256[]" |} "uint256["
           batch (VArr [VNum 1; VNum 2]) listSchema).
  - vm_compute. reflexivity.
  - reflexivity.
  - vm_compute. reflexivity.
  - reflexivity.
  - discriminate.
Defined.

Example encodeData_batch :
  encodeData sampleArrayBytes sampleHostGet sampleFrames sampleKeccak sampleEncode
    (KName "Batch") batch listSchema
  = Throw ArraysUnimplemented.
Proof. vm_compute. reflexivity. Qed.

(** An array field that comes first, in a struct whose type hash cannot be
    taken. *)
Example encodeData_array_before_builtin :
  encodeData sampleArrayBytes sampleHostGet sampleFrames sampleKeccak sampleEncode
    (KName "T") (VObj [("a", VArr [VNum 1])]) arrayThenBuiltinSchema
  = Throw TypeError.
Proof. vm_compute. reflexivity. Qed.

(** A struct that refers to itself under the name constructor: the empty
    object inherits a constructor, which has a constructor, and so on
    until the stack is full. *)
Example encodeData_unbounded :
  encodeData sampleArrayBytes sampleHostGet sampleFrames sampleKeccak sampleEncode
    (KName "T") (VObj []) loopSchema
  = Throw RangeError.
Proof. vm_compute. reflexivity. Qed.

(** C6 as it is worded fails when a field before the array field throws:
    here the struct-typed field [owner] holds null, and reading its first
    field is a TypeError. *)
Lemma encodeData_array_after_null_struct :
  ownedSchema !! "Owned" = Some [ {| f_name := "owner"; f_type := "Owner" |};
                                  {| f_name := "amounts"; f_type := "uint256[]" |} ] ∧
  ownedSchema !! "uint256[]" = None ∧
  get sampleHostGet ownedByNull "amounts" = Return (VArr [VNum 1]) ∧
  encodeData sampleArrayBytes sampleHostGet sampleFrames sampleKeccak sampleEncode
    (KName "Owned") ownedByNull ownedSchema
  = Throw TypeError.
Proof. split_and!; vm_compute; reflexivity. Qed.

(** C1 as it is worded fails for the empty primaryType: [sanitizeData]
    drops it, the root type is undefined, and [sign] throws where the
    hash of the empty-named struct was to be returned. *)
Lemma sign_empty_primaryType :
  sign sampleArrayBytes sampleHostGet sampleFrames sampleKeccak sampleEncode emptyNameMessage
  = Throw (NoTypeDefinition "undefined") ∧
  (∃ hash, signHash_spec sampleArrayBytes sampleHostGet sampleFrames sampleKeccak sampleEncode
             emptyNameSchema (KName "") (VObj []) (VObj []) = Return hash) ∧
  sign sampleArrayBytes sampleHostGet sampleFrames sampleKeccak sampleEncode emptyNameMessage
  ≠ signHash_spec sampleArrayBytes sampleHostGet sampleFrames sampleKeccak sampleEncode
      emptyNameSchema (KName "") (VObj []) (VObj []).
Proof.
  split_and!.
  - vm_compute. reflexivity.
  - eexists. vm_compute. reflexivity.
  - vm_compute. discriminate.
Qed.

Lemma sign_sanitized_witness :
  sign sampleArrayBytes sampleHostGet sampleFrames sampleKeccak sampleEncode mailMessage
  = signHash_spec sampleArrayBytes sampleHostGet sampleFrames sampleKeccak sampleEncode
      (<["EIP712Domain" := [ {| f_name := "name"; f_type := "string" |} ]]> personSchema)
      (KName "Person") (VObj [("name", VStr "Ether Mail")]) (VObj bobNoWallet).
Proof.
  apply (sign_sanitized sampleArrayBytes sampleHostGet sampleFrames sampleKeccak sampleEncode
           mailMessage);
    [reflexivity|reflexivity|reflexivity|reflexivity|discriminate].
Defined.

Lemma sanitizeData_drops_falsy_witness :
  s_primaryType (sanitizeData emptyNameMessage) = None ∧
  s_domain (sanitizeData nullDomainMessage) = None ∧
  sign sampleArrayBytes sampleHostGet sampleFrames sampleKeccak sampleEncode nullDomainMessage
  = sign sampleArrayBytes sampleHostGet sampleFrames sampleKeccak sampleEncode
      (withoutDomain nullDomainMessage).
Proof.
  destruct (sanitizeData_drops_falsy sampleArrayBytes sampleHostGet sampleFrames sampleKeccak
              sampleEncode emptyNameMessage) as (_ & Hp & _).
  destruct (sanitizeData_drops_falsy sampleArrayBytes sampleHostGet sampleFrames sampleKeccak
              sampleEncode nullDomainMessage) as (_ & _ & Hd & _).
  destruct (Hp eq_refl) as (Hp1 & _).
  destruct (Hd I) as (Hd1 & _ & Hd3 & _).
  exact (conj Hp1 (conj Hd1 Hd3)).
Defined.

Lemma typedSignatureHashBuffer_cases_witness :
  typedSignatureHashBuffer sampleArrayBytes sampleKeccak sampleEncode namelessEntries
  = Throw ExpectNonEmptyArray ∧
  typedSignatureHashBuffer sampleArrayBytes sampleKeccak sampleEncode legacyEntries
  = (packedSchema ←
       call (sampleEncode ["string"; "string"]
               [VStr "string Message"; VStr "uint32 A number"]);
     packedData ← call (sampleEncode ["string"; "uint32"] [VStr "Hi, Alice!"; VNum 1337]);
     packed ←
       call (sampleEncode ["bytes32"; "bytes32"]
               [VBuffer (sampleKeccak packedSchema); VBuffer (sampleKeccak packedData)]);
     Return (sampleKeccak packed)).
Proof.
  destruct (typedSignatureHashBuffer_cases sampleArrayBytes sampleKeccak sampleEncode
              namelessEntries) as (_ & _ & Hn).
  destruct (typedSignatureHashBuffer_cases sampleArrayBytes sampleKeccak sampleEncode
              legacyEntries) as (_ & _ & Hl).
  split.
  - apply (Hn [VStr "Hi, Alice!"]).
    + constructor; [reflexivity|constructor].
    + exists {| e_type := "string"; e_name := None; e_value := VStr "Hi, Alice!" |}.
      split; [apply list_elem_of_here|left; reflexivity].
  - apply (Hl [VStr "Hi, Alice!"; VNum 1337]).
    + constructor; [reflexivity|]. constructor; [reflexivity|constructor].
    + discriminate.
    + intros e He. apply elem_of_cons in He as [->|He]; [exists "Message"; by split|].
      apply elem_of_cons in He as [->|He]; [exists "A number"; by split|].
      by apply elem_of_nil in He.
Defined.

(** C7 as it is worded fails for a non-empty list of named entries one of
    which has type bytes and a value that [toBuffer] does not take, such
    as a boolean: the conversion throws "invalid type" and no hash is
    returned. *)
Lemma typedSignatureHashBuffer_named_bytes :
  bytesEntries ≠ [] ∧
  (∀ e, e ∈ bytesEntries → e_name e = Some "payload") ∧
  typedSignatureHashBuffer sampleArrayBytes sampleKeccak sampleEncode bytesEntries
  = Throw InvalidType.
Proof.
  split_and!; [discriminate| |vm_compute; reflexivity].
  by intros e ->%list_elem_of_singleton.
Qed.

Lemma signing_never_returns_witness :
  personalSign sampleArrayBytes sampleHostGet sampleEcsign sampleKeccak (VStr "0x01")
    {| mp_data := VStr "0xdeadbeef" |} = Throw TypeError ∧
  signTypedDataLegacy sampleArrayBytes sampleHostGet sampleKeccak sampleEncode sampleEcsign
    (VStr "0x01") {| mp_data := legacyEntries |} = Throw TypeError ∧
  signTypedData sampleArrayBytes sampleHostGet sampleFrames sampleKeccak sampleEncode
    sampleEcsign (VStr "0x01") {| mp_data := mailMessage |} = Throw TypeError.
Proof.
  destruct (signing_never_returns sampleArrayBytes sampleHostGet sampleFrames sampleKeccak
              sampleEncode sampleEncode sampleEcsign sampleKeccak (VStr "0x01")
              {| mp_data := VStr "0xdeadbeef" |}
              {| mp_data := legacyEntries |} {| mp_data := mailMessage |})
    as (_ & H1 & H2 & H3).
  split_and!.
  - eapply H1; reflexivity.
  - eapply H2; vm_compute; reflexivity.
  - eapply H3; vm_compute; reflexivity.
Defined.

(** ** Examples of the further properties *)

Example findTypeDependencies_skips_arrays :
  findTypeDependencies (KName "Owned") ownedSchema = Return [KName "Owned"; KName "Owner"] ∧
  findTypeDependencies (KName "Point") pointSchema = Return [KName "Point"].
Proof. split; vm_compute; reflexivity. Qed.

Lemma findTypeDependencies_reachable_witness :
  rtc (refersTo personSchema) (KName "Mail") (KName "Person").
Proof.
  destruct (findTypeDependencies_reachable (KName "Mail") personSchema) as (Hret & _).
  - eexists. vm_compute. reflexivity.
  - destruct (Hret [KName "Mail"; KName "Person"]) as [_ Hreach]; [vm_compute; reflexivity|].
    apply Hreach. apply elem_of_cons. right. apply elem_of_cons. by left.
Defined.

Lemma concatSig_pads_short_witness :
  concatSig sampleArrayBytes (VNum 27) [Byte.x0a] sampleR
  = Return ("0x" +:+ toHex (padLeft 32 [Byte.x0a] ++ padLeft 32 sampleR ++ [byteOf 27])).
Proof.
  apply (concatSig_pads_short sampleArrayBytes 27 [Byte.x0a] sampleR).
  - left. reflexivity.
  - simpl. lia.
  - simpl. lia.
Defined.

Lemma normalize_canonical_witness :
  normalize sampleArrayBytes (VStr "0xabc") = Return (VStr "0xabc") ∧
  normalize sampleArrayBytes (VStr "0XABC") = normalize sampleArrayBytes (VStr "0xabc").
Proof.
  destruct (normalize_canonical sampleArrayBytes) as [Hagain Hcase]. split.
  - apply (Hagain (VStr "0XAbC")). reflexivity.
  - apply Hcase. reflexivity.
Defined.

Lemma recoverPublicKey_concatSig_witness :
  (sig ← concatSig sampleArrayBytes (VNum 28) sampleR sampleS;
   recoverPublicKey sampleArrayBytes sampleEcrecover [] (VStr sig))
  = call (sampleEcrecover [] 28 sampleR sampleS).
Proof.
  apply (recoverPublicKey_concatSig sampleArrayBytes sampleEcrecover [] 28 sampleR sampleS).
  - right. reflexivity.
  - reflexivity.
  - reflexivity.
Defined.

Lemma recoverPublicKey_signature_shape_witness :
  recoverPublicKey sampleArrayBytes sampleEcrecover [] (VStr "0x1234")
  = Throw InvalidSignatureLength.
Proof.
  apply (proj1 (recoverPublicKey_signature_shape sampleArrayBytes sampleEcrecover []
                  (VStr "0x1234")) [Byte.x12; Byte.x34]).
  - reflexivity.
  - simpl. lia.
Defined.

Lemma returned_hex_is_normal_witness :
  normalize sampleArrayBytes (VStr ("0x" +:+ toHex (sampleR ++ sampleS)))
  = Return (VStr ("0x" +:+ toHex (sampleR ++ sampleS))).
Proof.
  destruct (returned_hex_is_normal sampleArrayBytes sampleHostGet sampleFrames sampleKeccak
              sampleEncode sampleEncode sampleKeccak sampleEcrecover sampleAddress
              ("0x" +:+ toHex (sampleR ++ sampleS))) as (_ & Hkey & _).
  apply (Hkey {| rp_data := VStr "hello"; rp_sig := sampleSignature |}).
  vm_compute. reflexivity.
Defined.

Lemma unknown_type_rejected_witness :
  hashStruct sampleArrayBytes sampleHostGet sampleFrames sampleKeccak sampleEncode
    (KName "uint256") (VNum 1) personSchema
  = Throw (NoTypeDefinition "uint256") ∧
  hashStruct sampleArrayBytes sampleHostGet sampleFrames sampleKeccak sampleEncode
    (KName "valueOf") (VNum 1) personSchema
  = Throw TypeError.
Proof.
  destruct (unknown_type_rejected sampleArrayBytes sampleHostGet sampleFrames sampleKeccak
              sampleEncode (KName "uint256") (VNum 1) personSchema) as (_ & _ & Hprimitive).
  { vm_compute. reflexivity. }
  destruct (unknown_type_rejected sampleArrayBytes sampleHostGet sampleFrames sampleKeccak
              sampleEncode (KName "valueOf") (VNum 1) personSchema) as (_ & _ & Hmember).
  { vm_compute. reflexivity. }
  exact (conj Hprimitive Hmember).
Defined.

Lemma encodeData_reads_declared_fields_witness :
  encodeData sampleArrayBytes sampleHostGet sampleFrames sampleKeccak sampleEncode
    (KName "Point") (VObj point) pointSchema
  = encodeData sampleArrayBytes sampleHostGet sampleFrames sampleKeccak sampleEncode
      (KName "Point") (VObj [("x", VNum 1); ("y", VNum 2)]) pointSchema.
Proof.
  destruct (encodeData_reads_declared_fields sampleArrayBytes sampleHostGet sampleFrames
              sampleKeccak sampleEncode (KName "Point")
              [ {| f_name := "x"; f_type := "int256" |};
                {| f_name := "y"; f_type := "int256" |} ]
              pointSchema) as [_ Hobjects].
  - vm_compute. reflexivity.
  - apply (Hobjects point [("x", VNum 1); ("y", VNum 2)]).
    intros field value Hfield. rewrite <- !ownProp_holds.
    apply elem_of_cons in Hfield as [->|Hfield]; [reflexivity|].
    apply elem_of_cons in Hfield as [->|Hfield]; [reflexivity|].
    by apply elem_of_nil in Hfield.
Defined.

(** An own property that is undefined is not the inherited member. *)
Example encodeData_own_undefined :
  encodeData sampleArrayBytes sampleHostGet sampleFrames sampleKeccak sampleLayout
    (KName "Stringer") (VObj [("toString", VUndefined)]) stringerSchema
  = Return (repeat Byte.x00 32).
Proof. vm_compute. reflexivity. Qed.

Lemma encodeData_null_data_witness :
  encodeData sampleArrayBytes sampleHostGet sampleFrames sampleKeccak sampleEncode
    (KName "Owner") VNull ownedSchema
  = Throw TypeError.
Proof.
  apply (encodeData_null_data sampleArrayBytes sampleHostGet sampleFrames sampleKeccak
           sampleEncode (KName "Owner")
           {| f_name := "name"; f_type := "string" |} [] VNull ownedSchema).
  - left. reflexivity.
  - vm_compute. reflexivity.
Defined.

Lemma sign_rejects_witness :
  sign sampleArrayBytes sampleHostGet sampleFrames sampleKeccak sampleEncode nullDomainMessage
  = Throw TypeError.
Proof.
  apply (sign_rejects sampleArrayBytes sampleHostGet sampleFrames sampleKeccak sampleEncode
           nullDomainMessage
           (<["EIP712Domain" := [ {| f_name := "name"; f_type := "string" |} ]]> personSchema)
           eq_refl)
    with (field := {| f_name := "name"; f_type := "string" |}) (fields := []).
  - vm_compute. reflexivity.
  - reflexivity.
Defined.


Lemma unreached_type_is_ignored_witness :
  hashStruct sampleArrayBytes sampleHostGet sampleFrames sampleKeccak sampleEncode
    (KName "Point") (VObj point) (delete "Label" pointSchema)
  = hashStruct sampleArrayBytes sampleHostGet sampleFrames sampleKeccak sampleEncode
      (KName "Point") (VObj point) pointSchema.
Proof.
  apply (unreached_type_is_ignored sampleArrayBytes sampleHostGet sampleFrames sampleKeccak
           sampleEncode (KName "Point") (VObj point) pointSchema "Label").
  - intros found Hfound x Hx. vm_compute in Hfound. injection Hfound as <-.
    apply list_elem_of_singleton in Hx as ->. discriminate.
  - intros Hthrow. vm_compute in Hthrow. discriminate.
Defined.

Lemma encodeData_plain_struct_witness :
  encodeData sampleArrayBytes sampleHostGet sampleFrames sampleKeccak sampleEncode
    (KName "Point") (VObj point) pointSchema
  = (hash ← hashType sampleArrayBytes sampleKeccak (KName "Point") pointSchema;
     call (sampleEncode ["bytes32"; "int256"; "int256"] [VBuffer hash; VNum 1; VNum 2])).
Proof.
  apply (encodeData_plain_struct sampleArrayBytes sampleHostGet sampleFrames sampleKeccak
           sampleEncode (KName "Point")
           [ {| f_name := "x"; f_type := "int256" |}; {| f_name := "y"; f_type := "int256" |} ]
           point pointSchema).
  - vm_compute. reflexivity.
  - intros field Hfield.
    assert (f_type field = "int256") as ->.
    { apply elem_of_cons in Hfield as [->|Hfield]; [reflexivity|].
      apply elem_of_cons in Hfield as [->|Hfield]; [reflexivity|].
      by apply elem_of_nil in Hfield. }
    unfold plainType. split_and!; [discriminate|discriminate| | |discriminate|discriminate].
    + vm_compute. reflexivity.
    + apply (bool_decide_unpack _). vm_compute. exact I.
Defined.
